(** * patch.py: the Konami4 -> Konami5 (SCC) ROM patcher

    A shallow embedding of [src/patch.py].  Python's [bytearray] is a list
    of bytes indexed by integers; the functions of the script mutate the
    buffer they are handed, so each one is an action of a small state and
    exception monad whose state is that buffer.  The monad also records the
    index of every subscript evaluated, which is what the bounds statements
    are about.

    The first part is the program: bytes, MD5, the monad, the functions of
    the script and the script itself, with the music compiler, the assembler
    and the input files as section variables.  It is followed by the
    functions on buffers the proofs go through and by the statements of the
    specification that the code does not meet, written as it words them.
    The second part proves what the code does. *)

From Stdlib Require Import ZArith Lia Strings.Byte Strings.Ascii Strings.String.
From stdpp Require Import base list list_numbers.

Local Open Scope Z_scope.

(** ** Bytes and Python integers *)

Abbreviation bytearray := (list byte).

(** The integer a subscript read [rom[i]] yields. *)
Definition byte_val (b : byte) : Z := Z.of_N (Byte.to_N b).

(** The byte a subscript write stores; [None] is Python's
    "byte must be in range(0, 256)". *)
Definition mk_byte (v : Z) : option byte :=
  if (0 <=? v) && (v <? 256) then Byte.of_N (Z.to_N v) else None.

(** ** MD5

    [hashlib.md5] is the standard library's; it is written out here after
    RFC 1321 so that [check_hash] can be evaluated.  Words are 32-bit
    integers with the wrap-around made explicit by [mask32]. *)

Module MD5.
Definition mask32 (x : Z) : Z := Z.land x 0xffffffff.
Definition rotl (x s : Z) : Z :=
  mask32 (Z.lor (Z.shiftl x s) (Z.shiftr x (32 - s))).
Definition not32 (x : Z) : Z := Z.lxor x 0xffffffff.

Definition K : list Z :=
  [ 0xd76aa478; 0xe8c7b756; 0x242070db; 0xc1bdceee;
    0xf57c0faf; 0x4787c62a; 0xa8304613; 0xfd469501;
    0x698098d8; 0x8b44f7af; 0xffff5bb1; 0x895cd7be;
    0x6b901122; 0xfd987193; 0xa679438e; 0x49b40821;
    0xf61e2562; 0xc040b340; 0x265e5a51; 0xe9b6c7aa;
    0xd62f105d; 0x02441453; 0xd8a1e681; 0xe7d3fbc8;
    0x21e1cde6; 0xc33707d6; 0xf4d50d87; 0x455a14ed;
    0xa9e3e905; 0xfcefa3f8; 0x676f02d9; 0x8d2a4c8a;
    0xfffa3942; 0x8771f681; 0x6d9d6122; 0xfde5380c;
    0xa4beea44; 0x4bdecfa9; 0xf6bb4b60; 0xbebfbc70;
    0x289b7ec6; 0xeaa127fa; 0xd4ef3085; 0x04881d05;
    0xd9d4d039; 0xe6db99e5; 0x1fa27cf8; 0xc4ac5665;
    0xf4292244; 0x432aff97; 0xab9423a7; 0xfc93a039;
    0x655b59c3; 0x8f0ccc92; 0xffeff47d; 0x85845dd1;
    0x6fa87e4f; 0xfe2ce6e0; 0xa3014314; 0x4e0811a1;
    0xf7537e82; 0xbd3af235; 0x2ad7d2bb; 0xeb86d391 ].

Definition shifts : list Z :=
  [ 7; 12; 17; 22; 7; 12; 17; 22; 7; 12; 17; 22; 7; 12; 17; 22;
    5; 9; 14; 20; 5; 9; 14; 20; 5; 9; 14; 20; 5; 9; 14; 20;
    4; 11; 16; 23; 4; 11; 16; 23; 4; 11; 16; 23; 4; 11; 16; 23;
    6; 10; 15; 21; 6; 10; 15; 21; 6; 10; 15; 21; 6; 10; 15; 21 ].

Definition at_ (l : list Z) (i : Z) : Z := default 0 (l !! Z.to_nat i).

(** The round function and the index of the message word it uses. *)
Definition mix (i b c d : Z) : Z * Z :=
  if i <? 16 then (Z.lor (Z.land b c) (Z.land (not32 b) d), i)
  else if i <? 32 then (Z.lor (Z.land d b) (Z.land (not32 d) c), (5 * i + 1) mod 16)
  else if i <? 48 then (Z.lxor b (Z.lxor c d), (3 * i + 5) mod 16)
  else (Z.lxor c (Z.lor b (not32 d)), (7 * i) mod 16).

Definition step (w : list Z) (st : Z * Z * Z * Z) (i : Z) : Z * Z * Z * Z :=
  let '(a, b, c, d) := st in
  let '(f, g) := mix i b c d in
  let f := mask32 (f + a + at_ K i + at_ w g) in
  (d, mask32 (b + rotl f (at_ shifts i)), b, c).

Definition le_word (bs : list Z) : Z :=
  at_ bs 0 + at_ bs 1 * 2 ^ 8 + at_ bs 2 * 2 ^ 16 + at_ bs 3 * 2 ^ 24.

Definition words (blk : list Z) : list Z :=
  (fun j => le_word (take 4 (drop (4 * j) blk))) <$> seq 0 16.

Definition compress (st : Z * Z * Z * Z) (blk : list Z) : Z * Z * Z * Z :=
  let '(a0, b0, c0, d0) := st in
  let '(a, b, c, d) := fold_left (step (words blk)) (seqZ 0 64) st in
  (mask32 (a0 + a), mask32 (b0 + b), mask32 (c0 + c), mask32 (d0 + d)).

Definition le_bytes (n : nat) (x : Z) : list Z :=
  (fun j => Z.land (Z.shiftr x (8 * Z.of_nat j)) 255) <$> seq 0 n.

Definition pad (msg : list Z) : list Z :=
  let n := Z.of_nat (length msg) in
  msg ++ [0x80] ++ replicate (Z.to_nat ((55 - n) mod 64)) 0
      ++ le_bytes 8 (Z.land (8 * n) 0xffffffffffffffff).

Fixpoint blocks (fuel : nat) (l : list Z) : list (list Z) :=
  match fuel, l with
  | O, _ | _, [] => []
  | S fuel', _ => take 64 l :: blocks fuel' (drop 64 l)
  end.

Definition digest (data : list byte) : list Z :=
  let msg := pad (byte_val <$> data) in
  let '(a, b, c, d) :=
    fold_left compress (blocks (length msg) msg)
              (0x67452301, 0xefcdab89, 0x98badcfe, 0x10325476) in
  le_bytes 4 a ++ le_bytes 4 b ++ le_bytes 4 c ++ le_bytes 4 d.

Definition hex_digit (n : Z) : ascii :=
  default "0"%char (list_ascii_of_string "0123456789abcdef" !! Z.to_nat n).

Definition hex_of_byte (x : Z) : list ascii :=
  [hex_digit (Z.shiftr x 4); hex_digit (Z.land x 15)].

(** [hashlib.md5(data).hexdigest()] *)
Definition hexdigest (data : list byte) : string :=
  string_of_list_ascii (concat (hex_of_byte <$> digest data)).
End MD5.

(** ** Exceptions, results and the monad *)

Inductive exn : Type :=
| IndexError
| ValueError
| AssertionError
| SystemExit (code : Z).

Inductive res (A : Type) : Type :=
| Val (a : A)
| Raise (e : exn).
Arguments Val {A} a.
Arguments Raise {A} e.

(** An action maps the state to a result, the state it leaves (also when it
    raises: writes made before the exception stay), and the indices it
    subscripted, oldest first. *)
Definition M (S A : Type) : Type := S -> (res A * S) * list Z.

Definition run {S A} (m : M S A) (s : S) : res A * S := fst (m s).
Definition accesses {S A} (m : M S A) (s : S) : list Z := snd (m s).

Definition ret {S A} (a : A) : M S A := fun s => ((Val a, s), []).

Definition get {S} : M S S := fun s => ((Val s, s), []).

Definition put {S} (s : S) : M S unit := fun _ => ((Val tt, s), []).

Definition raise {S A} (e : exn) : M S A := fun s => ((Raise e, s), []).

Definition bind {S A B} (m : M S A) (f : A -> M S B) : M S B :=
  fun s =>
    match m s with
    | ((Val a, s'), t) => let '(r, t') := f a s' in (r, t ++ t')
    | ((Raise e, s'), t) => ((Raise e, s'), t)
    end.

Notation "x <~ m ;; k" := (bind m (fun x => k))
  (at level 100, m at next level, right associativity).
Notation "m ;;; k" := (bind m (fun _ => k))
  (at level 100, right associativity).

(** Python's short-circuit [and] between two conditions with effects. *)
Definition and_then {S} (c1 c2 : M S bool) : M S bool :=
  b <~ c1 ;; if b then c2 else ret false.
Infix "&&&" := and_then (at level 40, left associativity).

(** [if c: body] *)
Definition when {S} (c : M S bool) (body : M S unit) : M S unit :=
  b <~ c ;; if b then body else ret tt.

(** [for x in xs: body x] *)
Fixpoint for_each {S A} (xs : list A) (body : A -> M S unit) : M S unit :=
  match xs with
  | [] => ret tt
  | x :: xs' => body x ;;; for_each xs' body
  end.

(** [range(lo, hi)] *)
Definition py_range (lo hi : Z) : list Z := seqZ lo (hi - lo).

(** [assert c], with assertions enabled (the script is not run with [-O]). *)
Definition py_assert {S} (c : bool) : M S unit :=
  if c then ret tt else raise AssertionError.

(** ** Subscripts of a bytearray *)

(** A negative index counts from the end. *)
Definition norm_index (len i : Z) : Z := if i <? 0 then i + len else i.

(** [rom[i]] *)
Definition getitem (i : Z) : M bytearray Z :=
  fun rom =>
    let k := norm_index (Z.of_nat (length rom)) i in
    match (if 0 <=? k then rom !! Z.to_nat k else None) with
    | Some b => ((Val (byte_val b), rom), [k])
    | None => ((Raise IndexError, rom), [k])
    end.

(** [rom[i] = v].  CPython converts the value before it checks the index;
    every write of the script follows a read of the same index or stores a
    byte value, so the order of the two checks is never observed. *)
Definition setitem (i v : Z) : M bytearray unit :=
  fun rom =>
    let k := norm_index (Z.of_nat (length rom)) i in
    match mk_byte v with
    | None => ((Raise ValueError, rom), [])
    | Some b =>
        if (0 <=? k) && (k <? Z.of_nat (length rom))
        then ((Val tt, <[Z.to_nat k := b]> rom), [k])
        else ((Raise IndexError, rom), [k])
    end.

(** [len(rom)] *)
Definition py_len : M bytearray Z :=
  fun rom => ((Val (Z.of_nat (length rom)), rom), []).

(** [x in [c1, c2, ...]] on integers *)
Definition py_in (x : Z) (cs : list Z) : bool := existsb (Z.eqb x) cs.

(** ** patch_mapper *)

Definition patch_mapper_body (offset : Z) : M bytearray unit :=
  when ((b0 <~ getitem offset ;; ret (b0 =? 0x32)) &&&
        (b1 <~ getitem (offset + 1) ;; ret (b1 =? 0x00)) &&&
        (b2 <~ getitem (offset + 2) ;; ret (py_in b2 [0x60; 0x80; 0xa0])))
       (v <~ getitem (offset + 2) ;; setitem (offset + 2) (v + 0x10)).

Definition patch_mapper : M bytearray unit :=
  n <~ py_len ;;
  for_each (py_range 0 (n - 2)) patch_mapper_body.

(** ** offset_address *)

Definition PATCH_IGNORE_LIST : list Z := [0x20daa; 0x23340; 0x20beb].
Definition CHANNEL_OFFSET : Z := 0x0e00.

Definition offset_address (index offset : Z) : M bytearray unit :=
  lo <~ getitem index ;;
  hi <~ getitem (index + 1) ;;
  let addr := lo + hi * 256 in
  let addr := addr + offset in
  setitem index (Z.land addr 255) ;;;
  setitem (index + 1) (Z.shiftr addr 8).

(** ** patch_music_channel_locations *)

Definition channel_body (offset : Z) : M bytearray unit :=
  if py_in offset PATCH_IGNORE_LIST then ret tt
  else
    when ((b0 <~ getitem offset ;; ret (b0 =? 0xdd)) &&&
          (b1 <~ getitem (offset + 1) ;; ret (b1 =? 0x21)) &&&
          (b3 <~ getitem (offset + 3) ;; ret (Z.land b3 0xfc =? 0xe0)))
         (offset_address (offset + 2) CHANNEL_OFFSET) ;;;
    when ((b0 <~ getitem offset ;;
           ret (py_in b0 [0x01; 0x11; 0x21; 0x32; 0x3a; 0x22; 0x2a])) &&&
          (b2 <~ getitem (offset + 2) ;; ret (Z.land b2 0xfc =? 0xe0)))
         (offset_address (offset + 1) CHANNEL_OFFSET).

Definition patch_music_channel_locations : M bytearray unit :=
  for_each (py_range 0x20000 0x213f0) channel_body.

(** ** patch_bios_psg_calls *)

Definition psg_body (offset : Z) : M bytearray unit :=
  when ((b0 <~ getitem offset ;; ret (b0 =? 0xcd)) &&&
        (b1 <~ getitem (offset + 1) ;; ret (b1 =? 0x93)) &&&
        (b2 <~ getitem (offset + 2) ;; ret (b2 =? 0x00)))
       (setitem (offset + 1) 0xe8 ;;; setitem (offset + 2) 0x7e).

Definition patch_bios_psg_calls : M bytearray unit :=
  n <~ py_len ;;
  for_each (py_range 0x20000 (n - 4)) psg_body.

(** ** check_hash *)

Definition check_hash (expected_hash : string) : M bytearray unit :=
  data <~ get ;;
  let h := MD5.hexdigest data in
  py_assert (String.eqb h expected_hash).

(** ** save_kss_file and the module-level script *)

(** What the script owns while it runs: the buffer bound to [rom], the
    second image [scc_rom], and the files written so far. *)
Record world : Type := World {
  rom : bytearray;
  scc_rom : bytearray;
  written : list (string * bytearray)
}.

(** A function called on [rom] acts on that field of the world. *)
Definition on_rom {A} (m : M bytearray A) : M world A :=
  fun w =>
    let '((r, b), t) := m (rom w) in
    ((r, World b (scc_rom w) (written w)), t).

(** A function called on a freshly built object, which nothing else holds. *)
Definition on_temp {S A} (v : bytearray) (m : M bytearray A) : M S A :=
  fun s => let '((r, _), t) := m v in ((r, s), t).

Definition write_file (filename : string) (content : bytearray) : M world unit :=
  fun w => ((Val tt, World (rom w) (scc_rom w) (written w ++ [(filename, content)])), []).

(** [l[a:b]] for constant bounds [0 <= a <= b]; a slice never raises, it
    stops at the end of [l]. *)
Definition py_slice (l : bytearray) (a b : Z) : bytearray :=
  take (Z.to_nat (b - a)) (drop (Z.to_nat a) l).

(** [int(s, 16)] on an ASCII string: surrounding white space, a sign, a
    [0x] prefix and single underscores between digits are accepted; [None]
    is [ValueError]. *)
Module PyInt.
Definition code (c : ascii) : Z := Z.of_N (N_of_ascii c).

Definition is_space (c : ascii) : bool :=
  let n := code c in
  ((9 <=? n) && (n <=? 13)) || ((28 <=? n) && (n <=? 32)).

Definition digit_value (c : ascii) : option Z :=
  let n := code c in
  if (48 <=? n) && (n <=? 57) then Some (n - 48)
  else if (97 <=? n) && (n <=? 102) then Some (n - 87)
  else if (65 <=? n) && (n <=? 70) then Some (n - 55)
  else None.

Definition is_underscore (c : ascii) : bool := code c =? 95.

Fixpoint lstrip (s : list ascii) : list ascii :=
  match s with
  | c :: s' => if is_space c then lstrip s' else s
  | [] => []
  end.

(** Digits and underscores; stops at the first other character. *)
Fixpoint scan (acc : Z) (after_underscore : bool) (s : list ascii)
  : option (Z * list ascii) :=
  match s with
  | [] => if after_underscore then None else Some (acc, [])
  | c :: s' =>
      if is_underscore c then
        if after_underscore then None else scan acc true s'
      else
        match digit_value c with
        | Some d => scan (acc * 16 + d) false s'
        | None => if after_underscore then None else Some (acc, s)
        end
  end.

Definition skip_prefix (s : list ascii) : list ascii :=
  match s with
  | z :: x :: s' =>
      if (code z =? 48) && ((code x =? 120) || (code x =? 88)) then
        match s' with
        | u :: s'' => if is_underscore u then s'' else s'
        | [] => s'
        end
      else s
  | _ => s
  end.

Definition signed (s : list ascii) : Z * list ascii :=
  match s with
  | c :: s' =>
      if code c =? 43 then (1, s')
      else if code c =? 45 then (-1, s')
      else (1, s)
  | [] => (1, [])
  end.

Definition int16 (s : string) : option Z :=
  let '(sign, s1) := signed (lstrip (list_ascii_of_string s)) in
  let s2 := skip_prefix s1 in
  match s2 with
  | c :: _ =>
      match digit_value c with
      | None => None
      | Some _ =>
          match scan 0 false s2 with
          | Some (v, rest) =>
              match lstrip rest with
              | [] => Some (sign * v)
              | _ => None
              end
          | None => None
          end
      end
  | [] => None
  end.
End PyInt.

(** The body of the loop over the fragments: decode the offset from the
    name, then copy the fragment byte by byte. *)
Definition copy_byte (offset : Z) (data : bytearray) (i : Z) : M bytearray unit :=
  match data !! Z.to_nat i with
  | Some b => setitem (offset + i) (byte_val b)
  | None => raise IndexError
  end.

Definition apply_patch (patch : string * bytearray) : M bytearray unit :=
  let '(patch_filename, data) := patch in
  match PyInt.int16 (substring 13 5 patch_filename) with
  | None => raise ValueError
  | Some offset =>
      for_each (py_range 0 (Z.of_nat (length data))) (copy_byte offset data)
  end.

Section Script.
(** The files [loadrom] reads. *)
Variables vkiller_rom nemesis3_rom kss_header : bytearray.

(** [konami_scc.compile.compile] with the script's arguments: an action
    on the buffer, written elsewhere. *)
Variable compile : M bytearray unit.

(** The run of [sjasmplus]: [None] is a non-zero exit, otherwise the
    fragment files [glob] finds afterwards, with their contents. *)
Variable sjasmplus : option (list (string * bytearray)).

Definition save_kss_file (filename : string) : M world unit :=
  w <~ get ;;
  let kss :=
    fold_left
      (fun kss page =>
         let offset := page * 8 * 1024 in
         kss ++ py_slice (rom w) offset (offset + 8 * 1024))
      [0x10; 0x0; 0x0; 0x11; 0x12; 0x13] kss_header in
  write_file filename kss.

Definition initial_world : world := World vkiller_rom nemesis3_rom [].

(** The statements of the module, top to bottom, after the two [loadrom]
    calls that make the initial world.  Deleting stale fragment files and
    printing are left out: they touch neither a buffer nor a file the script
    writes. *)
Definition script : M world unit :=
  on_rom (check_hash "66da3107684286d1eba45efb8eae9113") ;;;
  w <~ get ;;
  on_temp (py_slice (scc_rom w) 0x14000 0x1a000)
          (check_hash "61c33112a5a2cefd1df81dc1434aa42a") ;;;
  put (World (rom w ++ py_slice (scc_rom w) 0x14000 0x1a000
                    ++ replicate (Z.to_nat 0x1a000) " "%byte)
             (scc_rom w) (written w)) ;;;
  on_rom (b <~ getitem 0x21484 ;; py_assert (b =? 0x0a) ;;;
          setitem 0x21485 0x90 ;;;
          setitem 0x21486 0 ;;;
          setitem 0x21487 0x90 ;;;
          setitem 0x21488 0 ;;;
          setitem 0x213e0 0xc0 ;;;
          setitem 0x213e1 0 ;;;
          setitem 0x21404 0xa0 ;;;
          setitem 0x21405 0 ;;;
          setitem 0x0078 0xfa ;;;
          setitem 0x0077 0xf0 ;;;
          compile) ;;;
  save_kss_file "vkiller_scc.kss" ;;;
  on_rom (patch_mapper ;;;
          patch_music_channel_locations ;;;
          patch_bios_psg_calls) ;;;
  match sjasmplus with
  | None => raise (SystemExit (-1))
  | Some patches =>
      on_rom (for_each patches apply_patch) ;;;
      w <~ get ;;
      write_file "vkilscc.rom" (rom w)
  end.

(** Running the file: the script from the two images as loaded. *)
Definition patch_py : res unit * world := run script initial_world.
End Script.

(** The bytes of an ASCII string literal. *)
Definition bytes_of_string (s : string) : bytearray :=
  byte_of_ascii <$> list_ascii_of_string s.

(** ** The buffer seen as integers

    What [rom[i]] reads and what [rom[i] = v] leaves behind, for an index
    inside the buffer and a byte value. *)

Definition peek (rom : bytearray) (i : Z) : Z :=
  match rom !! Z.to_nat i with
  | Some b => byte_val b
  | None => 0
  end.

Definition byte_of (v : Z) : byte := default x00 (mk_byte v).

Definition poke (rom : bytearray) (i v : Z) : bytearray :=
  <[Z.to_nat i := byte_of v]> rom.

(** The 16-bit little-endian value at [i], and the buffer with such a value
    stored at [i]. *)
Definition read16 (rom : bytearray) (i : Z) : Z :=
  peek rom i + 256 * peek rom (i + 1).

Definition write16 (rom : bytearray) (i v : Z) : bytearray :=
  poke (poke rom i (v mod 256)) (i + 1) (v / 256).

(** One iteration of [patch_mapper] as a function on buffers: whether the
    mapper-select bytes are at [o], and the buffer after the iteration. *)
Definition mapper_match (rom : bytearray) (o : Z) : bool :=
  (peek rom o =? 0x32) && (peek rom (o + 1) =? 0x00) &&
  py_in (peek rom (o + 2)) [0x60; 0x80; 0xa0].

Definition mapper_step (o : Z) (rom : bytearray) : bytearray :=
  if mapper_match rom o then poke rom (o + 2) (peek rom (o + 2) + 0x10) else rom.

Definition mapper_pass (rom : bytearray) : bytearray :=
  fold_left (fun s o => mapper_step o s) (py_range 0 (Z.of_nat (length rom) - 2)) rom.

(** One iteration of [patch_music_channel_locations] as a function on
    buffers.  With [CHANNEL_OFFSET = 0x0e00] a relocation keeps the low byte
    and adds 0x0e to the high byte, so an iteration changes at most the
    bytes at [o + 3] (indexed load) and [o + 2] (immediate load). *)
Definition hi_e0 (v : Z) : bool := Z.land v 0xfc =? 0xe0.

Definition indexed_match (rom : bytearray) (o : Z) : bool :=
  (peek rom o =? 0xdd) && (peek rom (o + 1) =? 0x21) && hi_e0 (peek rom (o + 3)).

Definition immediate_match (rom : bytearray) (o : Z) : bool :=
  py_in (peek rom o) [0x01; 0x11; 0x21; 0x32; 0x3a; 0x22; 0x2a] &&
  hi_e0 (peek rom (o + 2)).

Definition bump (rom : bytearray) (p : Z) : bytearray :=
  poke rom p (peek rom p + 0x0e).

Definition indexed_stage (o : Z) (rom : bytearray) : bytearray :=
  if indexed_match rom o then bump rom (o + 3) else rom.

Definition channel_step (o : Z) (rom : bytearray) : bytearray :=
  if py_in o PATCH_IGNORE_LIST then rom
  else
    let rom1 := indexed_stage o rom in
    if immediate_match rom1 o then bump rom1 (o + 2) else rom1.

Definition channel_pass (rom : bytearray) : bytearray :=
  fold_left (fun s o => channel_step o s) (py_range 0x20000 0x213f0) rom.

(** The offsets the scan has tested before it reaches [k], and the bytes
    relocated by then, read off the buffer the scan started from: the byte
    at [j] is the high byte of an indexed-load operand matched at [j - 3] or
    of an immediate-load operand matched at [j - 2]. *)
Definition scanned (k o : Z) : bool :=
  (0x20000 <=? o) && (o <? k) && negb (py_in o PATCH_IGNORE_LIST).

Definition relocated (k : Z) (rom : bytearray) (j : Z) : bool :=
  (scanned k (j - 3) && indexed_match rom (j - 3)) ||
  (scanned k (j - 2) && immediate_match rom (j - 2)).

Definition expected (k : Z) (rom : bytearray) (j : Z) : Z :=
  if relocated k rom j then peek rom j + 0x0e else peek rom j.


(** Two buffers of length 0x213f3, zero except at the ignored offset
    0x20daa: one holds an indexed load there, the other an immediate load. *)
Definition indexed_at_ignored : bytearray :=
  replicate (Z.to_nat 0x20daa) x00 ++ [xdd; x21; x34; xe0]
    ++ replicate (Z.to_nat 0x645) x00.

Definition immediate_at_ignored : bytearray :=
  replicate (Z.to_nat 0x20daa) x00 ++ [x21; x34; xe0]
    ++ replicate (Z.to_nat 0x646) x00.

(** The bounds of the scan as the specification words them: an access is
    out of bounds exactly on the buffers shorter than 0x213f3. *)
Definition out_of_bounds_iff_short (rom : bytearray) : Prop :=
  fst (run patch_music_channel_locations rom) = Raise IndexError <->
  Z.of_nat (length rom) < 0x213f3.

(** A fragment merged as the specification words it: the buffer with the
    bytes of [data] in place of its own from [offset] on, the rest as it
    was; and the run of the merge giving that buffer. *)
Definition merged (rom data : bytearray) (offset : Z) : bytearray :=
  take (Z.to_nat offset) rom ++ data ++ drop (Z.to_nat offset + length data) rom.

Definition merges_at (patch_filename : string) (offset : Z)
           (rom data : bytearray) : Prop :=
  run (apply_patch (patch_filename, data)) rom = (Val tt, merged rom data offset).

(** Comparison of hex strings as the specification words it: equal up to
    the case of the ASCII letters. *)
Definition is_upper (c : ascii) : bool :=
  let n := PyInt.code c in (65 <=? n) && (n <=? 90).

Definition to_lower (c : ascii) : ascii :=
  if is_upper c then ascii_of_N (N_of_ascii c + 32) else c.

Definition lower (s : string) : string :=
  string_of_list_ascii (to_lower <$> list_ascii_of_string s).

Definition equal_up_to_case (s1 s2 : string) : bool :=
  String.eqb (lower s1) (lower s2).

Definition has_upper (s : string) : bool :=
  existsb is_upper (list_ascii_of_string s).

Definition verifies_up_to_case (data : bytearray) (expected_hash : string) : Prop :=
  equal_up_to_case (MD5.hexdigest data) expected_hash = true ->
  run (check_hash expected_hash) data = (Val tt, data).


(** The relocation as the specification words it: the call returns and
    leaves the sum reduced modulo 65536 at [i]. *)
Definition relocate_wraps (rom : bytearray) (i delta : Z) : Prop :=
  run (offset_address i delta) rom =
  (Val tt, write16 rom i ((read16 rom i + delta) mod 65536)).

(** The round trip as the specification words it: relocating by [delta] and
    then by [- delta] gives the buffer back. *)
Definition relocate_round_trip (rom : bytearray) (i delta : Z) : Prop :=
  run (offset_address i delta ;;; offset_address i (- delta)) rom = (Val tt, rom).

(** Every index an action subscripts satisfies [P], whatever the state. *)
Definition touches {S A} (P : Z -> Prop) (m : M S A) : Prop :=
  forall s, Forall P (accesses m s).

(** ** Further functions on buffers

    What [patch_mapper] has done to the byte at [j] once the scan has passed
    the offsets before [k], read off the buffer the scan started from. *)
Definition mapper_expected (k : Z) (rom : bytearray) (j : Z) : Z :=
  if (2 <=? j) && (j - 2 <? k) && mapper_match rom (j - 2)
  then peek rom j + 0x10
  else peek rom j.

(** One iteration of [patch_bios_psg_calls] as a function on buffers, the
    whole scan, and what the scan has done to the byte at [j] once it has
    passed the offsets before [k]. *)
Definition psg_match (rom : bytearray) (o : Z) : bool :=
  (peek rom o =? 0xcd) && (peek rom (o + 1) =? 0x93) && (peek rom (o + 2) =? 0x00).

Definition psg_step (o : Z) (rom : bytearray) : bytearray :=
  if psg_match rom o then poke (poke rom (o + 1) 0xe8) (o + 2) 0x7e else rom.

Definition psg_pass (rom : bytearray) : bytearray :=
  fold_left (fun s o => psg_step o s)
            (py_range 0x20000 (Z.of_nat (length rom) - 4)) rom.

Definition psg_scanned (k o : Z) : bool := (0x20000 <=? o) && (o <? k).

Definition psg_expected (k : Z) (rom : bytearray) (j : Z) : Z :=
  if psg_scanned k (j - 1) && psg_match rom (j - 1) then 0xe8
  else if psg_scanned k (j - 2) && psg_match rom (j - 2) then 0x7e
  else peek rom j.

(** A buffer that [patch_music_channel_locations] can have made of [rom]:
    the same length, and at every index the same byte, or, between 0x20002
    and 0x213f2, a byte that was 0xe0..0xe3 increased by 0x0e. *)
Definition relocation_of (rom cur : bytearray) : Prop :=
  length cur = length rom /\
  forall j, 0 <= j ->
    peek cur j = peek rom j \/
    (0xe0 <= peek rom j <= 0xe3 /\ 0x20002 <= j <= 0x213f2 /\
     peek cur j = peek rom j + 0x0e).

(** The content [save_kss_file] writes: the header followed by the six
    pages, and the number of bytes the page at [page * 8192] contributes
    from a buffer of [len] bytes. *)
Definition kss_image (kss_header rom : bytearray) : bytearray :=
  fold_left
    (fun kss page =>
       let offset := page * 8 * 1024 in
       kss ++ py_slice rom offset (offset + 8 * 1024))
    [0x10; 0x0; 0x0; 0x11; 0x12; 0x13] kss_header.

Definition page_size (len page : Z) : Z :=
  Z.min 8192 (Z.max 0 (len - page * 8192)).

(** ** The script after the integrity checks

    The buffer the script builds once both digests are accepted, and the
    statements that follow, from the kick-drum fix to the last write. *)
Definition composed (vkiller nemesis3 : bytearray) : bytearray :=
  vkiller ++ py_slice nemesis3 0x14000 0x1a000
          ++ replicate (Z.to_nat 0x1a000) " "%byte.

Definition build (kss_header : bytearray) (compile : M bytearray unit)
           (sjasmplus : option (list (string * bytearray))) : M world unit :=
  on_rom (b <~ getitem 0x21484 ;; py_assert (b =? 0x0a) ;;;
          setitem 0x21485 0x90 ;;;
          setitem 0x21486 0 ;;;
          setitem 0x21487 0x90 ;;;
          setitem 0x21488 0 ;;;
          setitem 0x213e0 0xc0 ;;;
          setitem 0x213e1 0 ;;;
          setitem 0x21404 0xa0 ;;;
          setitem 0x21405 0 ;;;
          setitem 0x0078 0xfa ;;;
          setitem 0x0077 0xf0 ;;;
          compile) ;;;
  save_kss_file kss_header "vkiller_scc.kss" ;;;
  on_rom (patch_mapper ;;;
          patch_music_channel_locations ;;;
          patch_bios_psg_calls) ;;;
  match sjasmplus with
  | None => raise (SystemExit (-1))
  | Some patches =>
      on_rom (for_each patches apply_patch) ;;;
      w <~ get ;;
      write_file "vkilscc.rom" (rom w)
  end.

(** The buffer after the drum and stack fixes, which is what the music
    compiler is handed. *)
Definition fixed (rom : bytearray) : bytearray :=
  poke (poke (poke (poke (poke (poke (poke (poke (poke (poke rom
    0x21485 0x90) 0x21486 0) 0x21487 0x90) 0x21488 0)
    0x213e0 0xc0) 0x213e1 0) 0x21404 0xa0) 0x21405 0) 0x0078 0xfa) 0x0077 0xf0.

(** The three patch passes in the script's order. *)
Definition patched (rom : bytearray) : bytearray :=
  psg_pass (channel_pass (mapper_pass rom)).




(** A buffer of 0x22485 bytes, zero except for 0x0a at 0x21484. *)
Definition sample_image : bytearray :=
  replicate (Z.to_nat 0x21484) x00 ++ [x0a] ++ replicate (Z.to_nat 0x1000) x00.

(** Five lower-case hex digits of [n], most significant first: the form
    the offset takes in a fragment's name. *)
Definition hex5 (n : Z) : string :=
  string_of_list_ascii
    (map (fun k => MD5.hex_digit (n / 16 ^ k mod 16)) [4; 3; 2; 1; 0]).

(** What [int] needs of a character to read it as the hex digit [d] in
    first position: no blank, no sign, no underscore, no [x]. *)
Definition reads_as (c : ascii) (d : Z) : Prop :=
  PyInt.digit_value c = Some d /\ PyInt.is_space c = false /\
  PyInt.is_underscore c = false /\ (PyInt.code c =? 43) = false /\
  (PyInt.code c =? 45) = false /\ (PyInt.code c =? 120) = false /\
  (PyInt.code c =? 88) = false.





(** Linear arithmetic with quotients and remainders by constants. *)
Ltac dlia := Z.to_euclidean_division_equations; lia.

(** Closed comparisons and equations, by evaluation. *)
Ltac by_eval :=
  vm_compute; repeat split; first [reflexivity | discriminate | intro; discriminate].

(** * Reasoning about actions *)

Section Actions.
Context {S : Type}.

Lemma run_ret {A} (a : A) (s : S) : run (ret a) s = (Val a, s).
Proof. reflexivity. Qed.

Lemma run_raise {A} (e : exn) (s : S) : run (raise (A := A) e) s = (Raise e, s).
Proof. reflexivity. Qed.

Lemma run_get (s : S) : run get s = (Val s, s).
Proof. reflexivity. Qed.

Lemma run_put (s s0 : S) : run (put s) s0 = (Val tt, s).
Proof. reflexivity. Qed.

Lemma run_bind {A B} (m : M S A) (f : A -> M S B) (s : S) :
  run (bind m f) s =
  match run m s with
  | (Val a, s') => run (f a) s'
  | (Raise e, s') => (Raise e, s')
  end.
Proof.
  unfold run, bind. destruct (m s) as [[[a|e] s'] t]; simpl; [|reflexivity].
  destruct (f a s') as [r t']. reflexivity.
Qed.

Lemma accesses_bind {A B} (m : M S A) (f : A -> M S B) (s : S) :
  accesses (bind m f) s =
  match run m s with
  | (Val a, s') => accesses m s ++ accesses (f a) s'
  | (Raise e, s') => accesses m s
  end.
Proof.
  unfold run, accesses, bind. destruct (m s) as [[[a|e] s'] t]; simpl; [|reflexivity].
  destruct (f a s') as [r t']. reflexivity.
Qed.

Lemma run_when (c : M S bool) (body : M S unit) (s : S) :
  run (when c body) s =
  match run c s with
  | (Val true, s') => run body s'
  | (Val false, s') => (Val tt, s')
  | (Raise e, s') => (Raise e, s')
  end.
Proof.
  unfold when. rewrite run_bind. destruct (run c s) as [[[|]|e] s']; reflexivity.
Qed.

Lemma run_and_then (c1 c2 : M S bool) (s : S) :
  run (c1 &&& c2) s =
  match run c1 s with
  | (Val true, s') => run c2 s'
  | (Val false, s') => (Val false, s')
  | (Raise e, s') => (Raise e, s')
  end.
Proof.
  unfold and_then. rewrite run_bind. destruct (run c1 s) as [[[|]|e] s']; reflexivity.
Qed.

Lemma run_for_each_cons {A} (x : A) (xs : list A) (body : A -> M S unit) (s : S) :
  run (for_each (x :: xs) body) s =
  match run (body x) s with
  | (Val _, s') => run (for_each xs body) s'
  | (Raise e, s') => (Raise e, s')
  end.
Proof. simpl. apply run_bind. Qed.

Lemma run_for_each_app {A} (xs ys : list A) (body : A -> M S unit) (s : S) :
  run (for_each (xs ++ ys) body) s =
  match run (for_each xs body) s with
  | (Val _, s') => run (for_each ys body) s'
  | (Raise e, s') => (Raise e, s')
  end.
Proof.
  revert s. induction xs as [|x xs IH]; intros s; [reflexivity|].
  rewrite <- app_comm_cons, !run_for_each_cons.
  destruct (run (body x) s) as [[[]|e] s']; [apply IH|reflexivity].
Qed.

(** A loop whose every iteration returns and acts as [step] on the states
    of an invariant [I] returns, and acts as the fold of [step]. *)
Lemma run_for_each_fold {A} (I : S -> Prop) (step : A -> S -> S)
      (body : A -> M S unit) (xs : list A) (s : S) :
  (forall x s, x ∈ xs -> I s -> run (body x) s = (Val tt, step x s) /\ I (step x s)) ->
  I s ->
  run (for_each xs body) s = (Val tt, fold_left (fun s x => step x s) xs s) /\
  I (fold_left (fun s x => step x s) xs s).
Proof.
  revert s. induction xs as [|x xs IH]; intros s Hbody Hs; [split; [reflexivity|assumption]|].
  destruct (Hbody x s) as [Hrun HI]; [left|assumption|].
  rewrite run_for_each_cons, Hrun. simpl. apply IH; [|assumption].
  intros y s' Hy. apply Hbody. right. assumption.
Qed.

(** An invariant of every step is an invariant of the fold. *)
Lemma fold_left_invariant {A} (I : S -> Prop) (step : A -> S -> S) (xs : list A) (s : S) :
  (forall x s, x ∈ xs -> I s -> I (step x s)) ->
  I s -> I (fold_left (fun s x => step x s) xs s).
Proof.
  revert s. induction xs as [|x xs IH]; intros s Hstep Hs; [assumption|].
  simpl. apply IH.
  - intros y s' Hy. apply Hstep. right. assumption.
  - apply Hstep; [left|assumption].
Qed.

Lemma touches_ret {A} P (a : A) : touches (S := S) P (ret a).
Proof. intros s. constructor. Qed.

Lemma touches_raise {A} P e : touches (S := S) P (raise (A := A) e).
Proof. intros s. constructor. Qed.

Lemma touches_bind {A B} P (m : M S A) (f : A -> M S B) :
  touches P m -> (forall a, touches P (f a)) -> touches P (bind m f).
Proof.
  intros Hm Hf s. rewrite accesses_bind.
  destruct (run m s) as [[a|e] s']; [|apply Hm].
  apply Forall_app. split; [apply Hm|apply Hf].
Qed.

Lemma touches_when P (c : M S bool) (body : M S unit) :
  touches P c -> touches P body -> touches P (when c body).
Proof.
  intros Hc Hb. apply touches_bind; [assumption|].
  intros [|]; [assumption|apply touches_ret].
Qed.

Lemma touches_and_then P (c1 c2 : M S bool) :
  touches P c1 -> touches P c2 -> touches P (c1 &&& c2).
Proof.
  intros H1 H2. apply touches_bind; [assumption|].
  intros [|]; [assumption|apply touches_ret].
Qed.

Lemma touches_for_each {A} P (xs : list A) (body : A -> M S unit) :
  (forall x, x ∈ xs -> touches P (body x)) -> touches P (for_each xs body).
Proof.
  induction xs as [|x xs IH]; intros Hbody; [apply touches_ret|].
  simpl. apply touches_bind; [apply Hbody; left|].
  intros _. apply IH. intros y Hy. apply Hbody. right. assumption.
Qed.
End Actions.

(** ** The library functions against their reference values *)

(** The test suite of RFC 1321 (A.5), one-block and two-block messages. *)
Lemma md5_test_suite :
  MD5.hexdigest (bytes_of_string "") = "d41d8cd98f00b204e9800998ecf8427e"%string /\
  MD5.hexdigest (bytes_of_string "a") = "0cc175b9c0f1b6a831c399e269772661"%string /\
  MD5.hexdigest (bytes_of_string "abc") = "900150983cd24fb0d6963f7d28e17f72"%string /\
  MD5.hexdigest (bytes_of_string "message digest")
  = "f96b697d7cb7938d525a2f31aaf161d0"%string /\
  MD5.hexdigest (bytes_of_string "abcdefghijklmnopqrstuvwxyz")
  = "c3fcd3d76192e4007dfb496cca67e13b"%string /\
  MD5.hexdigest
    (bytes_of_string "ABCDEFGHIJKLMNOPQRSTUVWXYZabcdefghijklmnopqrstuvwxyz0123456789")
  = "d174ab98d277d9f5a5611c2c9f419d9f"%string /\
  MD5.hexdigest
    (bytes_of_string
       "12345678901234567890123456789012345678901234567890123456789012345678901234567890")
  = "57edf4a22be3c955ac49da2e2107b67a"%string.
Proof. vm_compute. repeat split. Qed.

(** [int(s, 16)] on well-formed and malformed strings. *)
Lemma int16_examples :
  PyInt.int16 "1a3f0" = Some 0x1a3f0 /\ PyInt.int16 "01a3f" = Some 0x1a3f /\
  PyInt.int16 "1A3F0" = Some 0x1a3f0 /\ PyInt.int16 " -0x_1_f " = Some (-31) /\
  PyInt.int16 "0" = Some 0 /\ PyInt.int16 "" = None /\ PyInt.int16 "0x" = None /\
  PyInt.int16 "1__f" = None /\ PyInt.int16 "_1f" = None /\ PyInt.int16 "1f_" = None /\
  PyInt.int16 "+ 1" = None /\ PyInt.int16 ".bin" = None /\ PyInt.int16 "1.bin" = None.
Proof. vm_compute. repeat split. Qed.

(** ** Ranges *)

Lemma py_range_split (lo mid hi : Z) :
  lo <= mid <= hi -> py_range lo hi = py_range lo mid ++ py_range mid hi.
Proof.
  intros H. unfold py_range.
  replace (hi - lo) with ((mid - lo) + (hi - mid)) by lia.
  rewrite seqZ_app by lia. do 2 f_equal. lia.
Qed.

Lemma py_range_cons (lo hi : Z) :
  lo < hi -> py_range lo hi = lo :: py_range (lo + 1) hi.
Proof.
  intros H. unfold py_range. rewrite seqZ_cons by lia.
  do 2 f_equal; lia.
Qed.

Lemma py_range_empty (lo hi : Z) : hi <= lo -> py_range lo hi = [].
Proof. intros H. unfold py_range. apply seqZ_nil. lia. Qed.

Lemma elem_of_py_range (lo hi k : Z) : k ∈ py_range lo hi <-> lo <= k < hi.
Proof. unfold py_range. rewrite elem_of_seqZ. lia. Qed.

(** ** Bytes *)

Lemma byte_val_range (b : byte) : 0 <= byte_val b < 256.
Proof.
  unfold byte_val. pose proof (Byte.to_N_bounded b). lia.
Qed.

Lemma mk_byte_val (b : byte) : mk_byte (byte_val b) = Some b.
Proof.
  unfold mk_byte. pose proof (byte_val_range b) as H.
  replace (0 <=? byte_val b) with true by (symmetry; apply Z.leb_le; lia).
  replace (byte_val b <? 256) with true by (symmetry; apply Z.ltb_lt; lia).
  simpl. unfold byte_val. rewrite N2Z.id. apply Byte.of_to_N.
Qed.

Lemma mk_byte_Some (v : Z) (b : byte) : mk_byte v = Some b -> byte_val b = v /\ 0 <= v < 256.
Proof.
  unfold mk_byte. destruct (0 <=? v) eqn:H0; [|discriminate].
  destruct (v <? 256) eqn:H1; [|discriminate]. simpl.
  intros H%Byte.to_of_N. unfold byte_val. rewrite H. lia.
Qed.

Lemma mk_byte_None (v : Z) : mk_byte v = None <-> ~ (0 <= v < 256).
Proof.
  unfold mk_byte. destruct (0 <=? v) eqn:H0; destruct (v <? 256) eqn:H1; simpl;
    try (split; [intros _; lia|reflexivity]).
  rewrite Byte.of_N_None_iff. lia.
Qed.

Lemma byte_val_of (v : Z) : 0 <= v < 256 -> byte_val (byte_of v) = v.
Proof.
  intros H. unfold byte_of. destruct (mk_byte v) as [b|] eqn:E.
  - apply mk_byte_Some in E. apply E.
  - apply mk_byte_None in E. contradiction.
Qed.

Lemma mk_byte_of (v : Z) : 0 <= v < 256 -> mk_byte v = Some (byte_of v).
Proof.
  intros H. unfold byte_of. destruct (mk_byte v) as [b|] eqn:E; [reflexivity|].
  apply mk_byte_None in E. contradiction.
Qed.

Lemma byte_of_val (b : byte) : byte_of (byte_val b) = b.
Proof. unfold byte_of. rewrite mk_byte_val. reflexivity. Qed.

Lemma byte_val_inj (b1 b2 : byte) : byte_val b1 = byte_val b2 -> b1 = b2.
Proof. intros H. rewrite <- (byte_of_val b1), <- (byte_of_val b2), H. reflexivity. Qed.

(** ** Reads and writes inside the buffer *)

Lemma peek_range (rom : bytearray) (i : Z) : 0 <= peek rom i < 256.
Proof.
  unfold peek. destruct (rom !! Z.to_nat i); [apply byte_val_range|lia].
Qed.

Lemma length_poke (rom : bytearray) (i v : Z) : length (poke rom i v) = length rom.
Proof. apply length_insert. Qed.

Lemma peek_poke_eq (rom : bytearray) (i v : Z) :
  0 <= i < Z.of_nat (length rom) -> 0 <= v < 256 -> peek (poke rom i v) i = v.
Proof.
  intros Hi Hv. unfold peek, poke.
  rewrite list_lookup_insert_eq by lia. apply byte_val_of. assumption.
Qed.

Lemma peek_poke_ne (rom : bytearray) (i j v : Z) :
  0 <= i -> 0 <= j -> i <> j -> peek (poke rom i v) j = peek rom j.
Proof.
  intros Hi Hj Hne. unfold peek, poke.
  rewrite list_lookup_insert_ne by lia. reflexivity.
Qed.

Lemma poke_peek (rom : bytearray) (i : Z) : poke rom i (peek rom i) = rom.
Proof.
  unfold poke, peek. destruct (rom !! Z.to_nat i) as [b|] eqn:E.
  - rewrite byte_of_val. apply list_insert_id. assumption.
  - apply list_insert_ge. apply lookup_ge_None. assumption.
Qed.

Lemma run_getitem (rom : bytearray) (i : Z) :
  0 <= i < Z.of_nat (length rom) -> run (getitem i) rom = (Val (peek rom i), rom).
Proof.
  intros Hi. unfold run, getitem, norm_index, peek.
  replace (i <? 0) with false by (symmetry; apply Z.ltb_ge; lia).
  replace (0 <=? i) with true by (symmetry; apply Z.leb_le; lia).
  destruct (rom !! Z.to_nat i) as [b|] eqn:E; [reflexivity|].
  apply lookup_ge_None in E. lia.
Qed.

Lemma run_getitem_outside (rom : bytearray) (i : Z) :
  Z.of_nat (length rom) <= i -> run (getitem i) rom = (Raise IndexError, rom).
Proof.
  intros Hi. unfold run, getitem, norm_index.
  replace (i <? 0) with false by (symmetry; apply Z.ltb_ge; lia).
  replace (0 <=? i) with true by (symmetry; apply Z.leb_le; lia).
  rewrite (proj2 (lookup_ge_None rom (Z.to_nat i))) by lia. reflexivity.
Qed.

Lemma run_setitem (rom : bytearray) (i v : Z) :
  0 <= i < Z.of_nat (length rom) -> 0 <= v < 256 ->
  run (setitem i v) rom = (Val tt, poke rom i v).
Proof.
  intros Hi Hv. unfold run, setitem, norm_index, poke.
  rewrite (mk_byte_of v Hv).
  replace (i <? 0) with false by (symmetry; apply Z.ltb_ge; lia).
  replace (0 <=? i) with true by (symmetry; apply Z.leb_le; lia).
  replace (i <? Z.of_nat (length rom)) with true by (symmetry; apply Z.ltb_lt; lia).
  reflexivity.
Qed.

Lemma run_setitem_bad_value (rom : bytearray) (i v : Z) :
  ~ (0 <= v < 256) -> run (setitem i v) rom = (Raise ValueError, rom).
Proof.
  intros Hv. unfold run, setitem. rewrite (proj2 (mk_byte_None v) Hv). reflexivity.
Qed.

Lemma run_py_len (rom : bytearray) : run py_len rom = (Val (Z.of_nat (length rom)), rom).
Proof. reflexivity. Qed.

Lemma touches_getitem (P : Z -> Prop) (i : Z) : 0 <= i -> P i -> touches P (getitem i).
Proof.
  intros Hi HP rom. unfold accesses, getitem, norm_index.
  replace (i <? 0) with false by (symmetry; apply Z.ltb_ge; lia).
  destruct (if 0 <=? i then rom !! Z.to_nat i else None); repeat constructor; assumption.
Qed.

Lemma touches_setitem (P : Z -> Prop) (i v : Z) : 0 <= i -> P i -> touches P (setitem i v).
Proof.
  intros Hi HP rom. unfold accesses, setitem, norm_index.
  replace (i <? 0) with false by (symmetry; apply Z.ltb_ge; lia).
  destruct (mk_byte v); [|constructor].
  destruct ((0 <=? i) && (i <? Z.of_nat (length rom))); repeat constructor; assumption.
Qed.

(** ** offset_address *)

Lemma land_255 (v : Z) : Z.land v 255 = v mod 256.
Proof. change 255 with (Z.ones 8). rewrite Z.land_ones by lia. reflexivity. Qed.

Lemma shiftr_8 (v : Z) : Z.shiftr v 8 = v / 256.
Proof. rewrite Z.shiftr_div_pow2 by lia. reflexivity. Qed.

Lemma read16_range (rom : bytearray) (i : Z) : 0 <= read16 rom i < 65536.
Proof.
  unfold read16. pose proof (peek_range rom i). pose proof (peek_range rom (i + 1)). lia.
Qed.

Lemma read16_write16 (rom : bytearray) (i v : Z) :
  0 <= i -> i + 1 < Z.of_nat (length rom) -> 0 <= v < 65536 ->
  read16 (write16 rom i v) i = v.
Proof.
  intros Hi Hlen Hv. unfold read16, write16.
  rewrite peek_poke_ne by lia.
  rewrite !peek_poke_eq by (rewrite ?length_poke; dlia).
  dlia.
Qed.

(** Inside the buffer, the call stores the sum when the sum is a 16-bit value. *)
Lemma run_offset_address (rom : bytearray) (i delta : Z) :
  0 <= i -> i + 1 < Z.of_nat (length rom) ->
  0 <= read16 rom i + delta < 65536 ->
  run (offset_address i delta) rom = (Val tt, write16 rom i (read16 rom i + delta)).
Proof.
  intros Hi Hlen Hv. unfold offset_address, write16.
  rewrite run_bind, run_getitem by lia.
  rewrite run_bind, run_getitem by lia.
  rewrite land_255, shiftr_8.
  replace (peek rom i + peek rom (i + 1) * 256 + delta) with (read16 rom i + delta)
    by (unfold read16; lia).
  rewrite run_bind, run_setitem by dlia.
  rewrite run_setitem by (rewrite ?length_poke; dlia).
  reflexivity.
Qed.

(** Otherwise the low byte is stored and the high byte is refused. *)
Lemma run_offset_address_overflow (rom : bytearray) (i delta : Z) :
  0 <= i -> i + 1 < Z.of_nat (length rom) ->
  ~ (0 <= read16 rom i + delta < 65536) ->
  run (offset_address i delta) rom =
  (Raise ValueError, poke rom i ((read16 rom i + delta) mod 256)).
Proof.
  intros Hi Hlen Hv. unfold offset_address.
  rewrite run_bind, run_getitem by lia.
  rewrite run_bind, run_getitem by lia.
  rewrite land_255, shiftr_8.
  replace (peek rom i + peek rom (i + 1) * 256 + delta) with (read16 rom i + delta)
    by (unfold read16; lia).
  rewrite run_bind, run_setitem by dlia.
  rewrite run_setitem_bad_value by dlia.
  reflexivity.
Qed.

Lemma write16_read16 (rom : bytearray) (i : Z) : write16 rom i (read16 rom i) = rom.
Proof.
  unfold write16, read16.
  pose proof (peek_range rom i). pose proof (peek_range rom (i + 1)).
  replace ((peek rom i + 256 * peek rom (i + 1)) mod 256) with (peek rom i) by dlia.
  replace ((peek rom i + 256 * peek rom (i + 1)) / 256) with (peek rom (i + 1)) by dlia.
  rewrite poke_peek. apply poke_peek.
Qed.

Lemma write16_write16 (rom : bytearray) (i v w : Z) :
  0 <= i -> write16 (write16 rom i v) i w = write16 rom i w.
Proof.
  intros Hi. unfold write16, poke.
  rewrite (list_insert_insert_ne _ (Z.to_nat (i + 1)) (Z.to_nat i)) by lia.
  rewrite list_insert_insert_eq.
  rewrite (list_insert_insert_ne _ (Z.to_nat i) (Z.to_nat (i + 1))) by lia.
  rewrite list_insert_insert_eq. reflexivity.
Qed.

(** C1 (as amended).  For every buffer, every index [i] with [i + 1] inside
    the buffer and every delta: when the sum [a + delta] of the 16-bit
    little-endian value [a] at [i] and the delta is itself a 16-bit value,
    [offset_address] returns and leaves the little-endian encoding of
    [a + delta], which is [(a + delta) mod 65536], in the two bytes; when the
    sum exceeds 0xFFFF or is negative the call does not wrap: it stores the
    low byte and raises [ValueError] on the high byte. *)
Theorem offset_address_in_range (rom : bytearray) (i delta : Z) :
  0 <= i -> i + 1 < Z.of_nat (length rom) ->
  let a := read16 rom i in
  (0 <= a + delta < 65536 ->
   run (offset_address i delta) rom = (Val tt, write16 rom i (a + delta)) /\
   peek (write16 rom i (a + delta)) i = (a + delta) mod 256 /\
   peek (write16 rom i (a + delta)) (i + 1) = (a + delta) / 256 /\
   read16 (write16 rom i (a + delta)) i = (a + delta) mod 65536) /\
  (~ (0 <= a + delta < 65536) ->
   run (offset_address i delta) rom =
   (Raise ValueError, poke rom i ((a + delta) mod 256))).
Proof.
  intros Hi Hlen a. split.
  - intros Hv. split; [apply run_offset_address; assumption|].
    split; [|split].
    + unfold write16. rewrite peek_poke_ne by lia. apply peek_poke_eq; dlia.
    + unfold write16. apply peek_poke_eq; rewrite ?length_poke; dlia.
    + rewrite read16_write16 by assumption. rewrite Z.mod_small; lia.
  - intros Hv. apply run_offset_address_overflow; assumption.
Qed.

Lemma offset_address_in_range_witness :
  run (offset_address 0 0x0e00) [x34; xe0] = (Val tt, [x34; xee]).
Proof.
  refine (proj1 (proj1 (offset_address_in_range [x34; xe0] 0 0x0e00 _ _) _)).
  - lia.
  - simpl. lia.
  - by_eval.
Defined.

(** C1 (as stated) fails: at 0xFFFF, adding 1 raises after the low byte has
    been stored, where the claim has the two bytes become 0x0000. *)
Lemma offset_address_wraps_counterexample :
  run (offset_address 0 1) [xff; xff] = (Raise ValueError, [x00; xff]) /\
  ~ relocate_wraps [xff; xff] 0 1.
Proof.
  split; [reflexivity|].
  unfold relocate_wraps. vm_compute. discriminate.
Qed.

(** C2 (as amended).  For every buffer, every index [i] with [i + 1] inside
    the buffer and every delta [d] for which the relocated value stays a
    16-bit value, [offset_address] with [d] followed by [offset_address] with
    [- d] at the same index returns and restores the buffer. *)
Theorem offset_address_round_trip (rom : bytearray) (i d : Z) :
  0 <= i -> i + 1 < Z.of_nat (length rom) ->
  0 <= read16 rom i + d < 65536 ->
  relocate_round_trip rom i d.
Proof.
  intros Hi Hlen Hv. unfold relocate_round_trip.
  rewrite run_bind, run_offset_address by assumption.
  assert (Hback : read16 (write16 rom i (read16 rom i + d)) i + - d = read16 rom i)
    by (rewrite read16_write16 by assumption; lia).
  rewrite run_offset_address.
  - rewrite Hback, write16_write16 by assumption. rewrite write16_read16. reflexivity.
  - assumption.
  - unfold write16. rewrite !length_poke. assumption.
  - rewrite Hback. apply read16_range.
Qed.

Lemma offset_address_round_trip_witness :
  relocate_round_trip [x34; xe0] 0 0x0e00.
Proof.
  apply (offset_address_round_trip [x34; xe0] 0 0x0e00).
  - lia.
  - simpl. lia.
  - by_eval.
Defined.

(** C2 (as stated) fails: at 0xFFFF with delta 1 the first call raises and
    leaves the low byte changed, so the pair of calls does not give the
    buffer back. *)
Lemma offset_address_round_trip_counterexample :
  run (offset_address 0 1 ;;; offset_address 0 (- 1)) [xff; xff]
  = (Raise ValueError, [x00; xff]) /\
  ~ relocate_round_trip [xff; xff] 0 1.
Proof.
  split; [reflexivity|].
  unfold relocate_round_trip. vm_compute. discriminate.
Qed.

(** ** patch_mapper *)

Lemma py_in_true (x : Z) (cs : list Z) : py_in x cs = true <-> In x cs.
Proof.
  unfold py_in. rewrite existsb_exists. split.
  - intros [y [Hy E]]. apply Z.eqb_eq in E. subst. assumption.
  - intros H. exists x. split; [assumption|apply Z.eqb_refl].
Qed.

Lemma py_in_false (x : Z) (cs : list Z) : py_in x cs = false <-> ~ In x cs.
Proof.
  rewrite <- py_in_true. destruct (py_in x cs); intuition congruence.
Qed.

Lemma run_patch_mapper_body (rom : bytearray) (o : Z) :
  0 <= o -> o + 2 < Z.of_nat (length rom) ->
  run (patch_mapper_body o) rom = (Val tt, mapper_step o rom).
Proof.
  intros Ho Hlen. unfold patch_mapper_body, mapper_step, mapper_match.
  rewrite run_when, !run_and_then.
  rewrite run_bind, run_getitem, run_ret by lia.
  destruct (peek rom o =? 50); [|reflexivity].
  rewrite run_bind, run_getitem, run_ret by lia.
  destruct (peek rom (o + 1) =? 0); [|reflexivity].
  rewrite run_bind, run_getitem, run_ret by lia.
  destruct (py_in (peek rom (o + 2)) [96; 128; 160]) eqn:E; [|reflexivity].
  simpl. rewrite run_bind, run_getitem by lia.
  apply run_setitem; [lia|].
  apply py_in_true in E. simpl in E. lia.
Qed.

Lemma length_mapper_step (rom : bytearray) (o : Z) :
  length (mapper_step o rom) = length rom.
Proof. unfold mapper_step. destruct (mapper_match rom o); [apply length_poke|reflexivity]. Qed.

Lemma peek_mapper_step_ne (rom : bytearray) (o j : Z) :
  0 <= o -> 0 <= j -> j <> o + 2 -> peek (mapper_step o rom) j = peek rom j.
Proof.
  intros Ho Hj Hne. unfold mapper_step.
  destruct (mapper_match rom o); [|reflexivity]. apply peek_poke_ne; lia.
Qed.

(** Only a byte that holds 0x60, 0x80 or 0xa0 is ever rewritten. *)
Lemma peek_mapper_step_stable (rom : bytearray) (o j : Z) :
  0 <= o -> 0 <= j -> py_in (peek rom j) [0x60; 0x80; 0xa0] = false ->
  peek (mapper_step o rom) j = peek rom j.
Proof.
  intros Ho Hj Hv. destruct (Z.eq_dec j (o + 2)) as [->|Hne].
  - unfold mapper_step, mapper_match. rewrite Hv, andb_false_r. reflexivity.
  - apply peek_mapper_step_ne; assumption.
Qed.

Lemma peek_mapper_step_match (rom : bytearray) (o : Z) :
  0 <= o -> o + 2 < Z.of_nat (length rom) -> mapper_match rom o = true ->
  peek (mapper_step o rom) (o + 2) = peek rom (o + 2) + 0x10.
Proof.
  intros Ho Hlen Hm. unfold mapper_step. rewrite Hm.
  apply peek_poke_eq; [lia|].
  unfold mapper_match in Hm. apply andb_true_iff in Hm as [_ Hm].
  apply py_in_true in Hm. simpl in Hm. lia.
Qed.

(** The loop runs to its end on every buffer, and is the fold of the steps. *)
Lemma run_mapper_loop (n : nat) (rom : bytearray) (lo hi : Z) :
  0 <= lo -> hi <= Z.of_nat n - 2 -> length rom = n ->
  run (for_each (py_range lo hi) patch_mapper_body) rom
  = (Val tt, fold_left (fun s o => mapper_step o s) (py_range lo hi) rom) /\
  length (fold_left (fun s o => mapper_step o s) (py_range lo hi) rom) = n.
Proof.
  intros Hlo Hhi Hn.
  apply (run_for_each_fold (fun s => length s = n)); [|assumption].
  intros o s Ho%elem_of_py_range Hs. split.
  - apply run_patch_mapper_body; lia.
  - rewrite length_mapper_step. assumption.
Qed.

Lemma run_patch_mapper (rom : bytearray) :
  run patch_mapper rom = (Val tt, mapper_pass rom) /\
  length (mapper_pass rom) = length rom.
Proof.
  unfold patch_mapper, mapper_pass. rewrite run_bind, run_py_len.
  apply run_mapper_loop; [lia|lia|reflexivity].
Qed.

Lemma mapper_pass_split (rom : bytearray) (o : Z) :
  0 <= o -> o + 2 < Z.of_nat (length rom) ->
  mapper_pass rom =
  fold_left (fun s o => mapper_step o s) (py_range (o + 1) (Z.of_nat (length rom) - 2))
    (mapper_step o (fold_left (fun s o => mapper_step o s) (py_range 0 o) rom)).
Proof.
  intros Ho Hlen. unfold mapper_pass.
  rewrite (py_range_split 0 o) by lia. rewrite fold_left_app.
  rewrite (py_range_cons o) by lia. reflexivity.
Qed.

(** The three bytes of a match keep their values until the scan reaches
    them, and what the scan leaves at them is not touched afterwards. *)
Lemma mapper_pass_at_match (rom : bytearray) (o : Z) :
  0 <= o -> o + 2 < Z.of_nat (length rom) -> mapper_match rom o = true ->
  peek (mapper_pass rom) o = peek rom o /\
  peek (mapper_pass rom) (o + 1) = peek rom (o + 1) /\
  peek (mapper_pass rom) (o + 2) = peek rom (o + 2) + 0x10.
Proof.
  intros Ho Hlen Hm. rewrite (mapper_pass_split rom o) by assumption.
  pose proof Hm as Hm'. unfold mapper_match in Hm'.
  apply andb_true_iff in Hm' as [Hm' H2]. apply andb_true_iff in Hm' as [H0 H1].
  apply Z.eqb_eq in H0, H1.
  set (before := fold_left _ (py_range 0 o) rom).
  assert (Hb : length before = length rom /\ peek before o = peek rom o /\
               peek before (o + 1) = peek rom (o + 1) /\
               peek before (o + 2) = peek rom (o + 2)).
  { apply (fold_left_invariant (fun s => length s = length rom /\ peek s o = peek rom o /\
             peek s (o + 1) = peek rom (o + 1) /\ peek s (o + 2) = peek rom (o + 2)));
      [|tauto].
    intros x s Hx%elem_of_py_range (Hl & Ha & Hb & Hc).
    rewrite length_mapper_step. split; [assumption|].
    rewrite (peek_mapper_step_stable s x o) by (try rewrite Ha, H0; done || lia).
    rewrite (peek_mapper_step_stable s x (o + 1)) by (try rewrite Hb, H1; done || lia).
    rewrite (peek_mapper_step_ne s x (o + 2)) by lia. tauto. }
  destruct Hb as (Hl & Ha & Hb & Hc).
  assert (Hmb : mapper_match before o = true)
    by (unfold mapper_match; rewrite Ha, Hb, Hc; exact Hm).
  apply (fold_left_invariant (fun s => peek s o = peek rom o /\
           peek s (o + 1) = peek rom (o + 1) /\ peek s (o + 2) = peek rom (o + 2) + 0x10)).
  - intros x s Hx%elem_of_py_range (Ha' & Hb' & Hc').
    rewrite !peek_mapper_step_ne by lia. tauto.
  - rewrite !peek_mapper_step_ne by lia.
    rewrite peek_mapper_step_match by (assumption || lia). lia.
Qed.





(** C9.  [patch_mapper] turns [0x32, 0x00, 0x60] into [0x32, 0x00, 0x70];
    and for every buffer and every offset at which it holds 0x32, 0x00 and a
    byte among 0x60, 0x80, 0xa0, one run returns, leaves the first two bytes
    of the match as they were and the third one increased by 0x10. *)
Theorem patch_mapper_increments :
  run patch_mapper [x32; x00; x60] = (Val tt, [x32; x00; x70]) /\
  forall (rom : bytearray) (o : Z),
    0 <= o -> o + 2 < Z.of_nat (length rom) ->
    peek rom o = 0x32 -> peek rom (o + 1) = 0x00 ->
    In (peek rom (o + 2)) [0x60; 0x80; 0xa0] ->
    exists rom',
      run patch_mapper rom = (Val tt, rom') /\
      length rom' = length rom /\
      peek rom' o = 0x32 /\
      peek rom' (o + 1) = 0x00 /\
      peek rom' (o + 2) = peek rom (o + 2) + 0x10.
Proof.
  split; [reflexivity|].
  intros rom o Ho Hlen H0 H1 H2. exists (mapper_pass rom).
  destruct (run_patch_mapper rom) as [Hrun Hl].
  assert (Hm : mapper_match rom o = true).
  { unfold mapper_match. rewrite H0, H1. apply py_in_true in H2. rewrite H2. reflexivity. }
  destruct (mapper_pass_at_match rom o Ho Hlen Hm) as (Ha & Hb & Hc).
  rewrite Ha, Hb, Hc, H0, H1. tauto.
Qed.

Lemma patch_mapper_increments_witness :
  exists rom',
    run patch_mapper [xa0; x32; x00; x80; x32; x00; xa0; x00] = (Val tt, rom') /\
    length rom' = 8%nat /\
    peek rom' 4 = 0x32 /\ peek rom' 5 = 0x00 /\ peek rom' 6 = 0xb0.
Proof.
  refine (proj2 patch_mapper_increments
            [xa0; x32; x00; x80; x32; x00; xa0; x00] 4 _ _ _ _ _).
  - lia.
  - simpl. lia.
  - reflexivity.
  - reflexivity.
  - right. right. left. reflexivity.
Defined.

(** ** check_hash *)

Lemma run_check_hash (data : bytearray) (expected_hash : string) :
  run (check_hash expected_hash) data =
  (if String.eqb (MD5.hexdigest data) expected_hash then Val tt else Raise AssertionError,
   data).
Proof.
  unfold check_hash. rewrite run_bind, run_get. unfold py_assert.
  destruct (String.eqb (MD5.hexdigest data) expected_hash); reflexivity.
Qed.

Lemma run_check_hash_equal (data : bytearray) (expected_hash : string) :
  MD5.hexdigest data = expected_hash ->
  run (check_hash expected_hash) data = (Val tt, data).
Proof. intros H. rewrite run_check_hash. apply String.eqb_eq in H. rewrite H. reflexivity. Qed.

Lemma run_check_hash_differs (data : bytearray) (expected_hash : string) :
  MD5.hexdigest data <> expected_hash ->
  run (check_hash expected_hash) data = (Raise AssertionError, data).
Proof. intros H. rewrite run_check_hash. apply String.eqb_neq in H. rewrite H. reflexivity. Qed.

(** The digest is written with the digits [0-9a-f]. *)
Lemma hex_digit_not_upper (n : Z) : is_upper (MD5.hex_digit n) = false.
Proof.
  unfold MD5.hex_digit. generalize (Z.to_nat n). intros k.
  do 16 (destruct k as [|k]; [reflexivity|]). reflexivity.
Qed.

Lemma hexdigest_not_upper (data : bytearray) : has_upper (MD5.hexdigest data) = false.
Proof.
  unfold has_upper, MD5.hexdigest. rewrite list_ascii_of_string_of_list_ascii.
  induction (MD5.digest data) as [|x xs IH]; [reflexivity|].
  rewrite fmap_cons. simpl concat. unfold MD5.hex_of_byte at 1. simpl existsb.
  rewrite !hex_digit_not_upper. exact IH.
Qed.

(** C4 (as amended).  [check_hash] compares the computed digest, which is
    lower-case hex, with the expected string exactly: it returns if and only
    if the two strings are equal, it raises [AssertionError] otherwise, and
    so it raises on every expected value that holds an upper-case letter,
    also on one that equals the digest up to case.  The buffer is left as it
    was in both cases. *)
Theorem check_hash_exact (data : bytearray) (expected_hash : string) :
  (run (check_hash expected_hash) data = (Val tt, data) <->
   expected_hash = MD5.hexdigest data) /\
  (expected_hash <> MD5.hexdigest data ->
   run (check_hash expected_hash) data = (Raise AssertionError, data)) /\
  (has_upper expected_hash = true ->
   run (check_hash expected_hash) data = (Raise AssertionError, data)).
Proof.
  assert (Hne : expected_hash <> MD5.hexdigest data ->
                run (check_hash expected_hash) data = (Raise AssertionError, data))
    by (intros H; apply run_check_hash_differs; congruence).
  split; [|split].
  - split.
    + intros H. destruct (string_dec expected_hash (MD5.hexdigest data)) as [E|E]; [exact E|].
      rewrite (Hne E) in H. discriminate.
    + intros ->. apply run_check_hash_equal. reflexivity.
  - exact Hne.
  - intros Hup. apply Hne. intros ->. rewrite hexdigest_not_upper in Hup. discriminate.
Qed.

Lemma check_hash_exact_witness :
  run (check_hash "900150983cd24fb0d6963f7d28e17f72") (bytes_of_string "abc")
  = (Val tt, bytes_of_string "abc") /\
  run (check_hash "900150983CD24FB0D6963F7D28E17F72") (bytes_of_string "abc")
  = (Raise AssertionError, bytes_of_string "abc").
Proof.
  split.
  - apply (proj1 (check_hash_exact (bytes_of_string "abc") _)). vm_compute. reflexivity.
  - apply (proj2 (proj2 (check_hash_exact (bytes_of_string "abc") _))). reflexivity.
Defined.

(** C4 (as stated) fails: the digest of the empty buffer written in upper
    case equals the computed digest up to case, and [check_hash] raises. *)
Lemma check_hash_case_counterexample :
  MD5.hexdigest [] = "d41d8cd98f00b204e9800998ecf8427e"%string /\
  equal_up_to_case (MD5.hexdigest []) "D41D8CD98F00B204E9800998ECF8427E" = true /\
  run (check_hash "D41D8CD98F00B204E9800998ECF8427E") [] = (Raise AssertionError, []) /\
  ~ verifies_up_to_case [] "D41D8CD98F00B204E9800998ECF8427E".
Proof.
  assert (H : equal_up_to_case (MD5.hexdigest []) "D41D8CD98F00B204E9800998ECF8427E" = true)
    by (vm_compute; reflexivity).
  split; [|split; [|split]].
  - vm_compute. reflexivity.
  - exact H.
  - vm_compute. reflexivity.
  - intros Hc. specialize (Hc H). revert Hc. vm_compute. discriminate.
Qed.

(** ** The script up to its first mutation *)

Lemma run_on_rom {A} (m : M bytearray A) (w : world) :
  run (on_rom m) w =
  (fst (run m (rom w)), World (snd (run m (rom w))) (scc_rom w) (written w)).
Proof.
  unfold run, on_rom. destruct (m (rom w)) as [[r b] t]. reflexivity.
Qed.

Lemma run_on_temp {S A} (v : bytearray) (m : M bytearray A) (s : S) :
  run (on_temp v m) s = (fst (run m v), s).
Proof.
  unfold run, on_temp. destruct (m v) as [[r b] t]. reflexivity.
Qed.

Section ScriptFacts.
Variables vkiller_rom nemesis3_rom kss_header : bytearray.
Variable compile : M bytearray unit.
Variable sjasmplus : option (list (string * bytearray)).

(** A digest that differs stops the script with both images as loaded and
    nothing written. *)
Lemma patch_py_mismatch :
  MD5.hexdigest vkiller_rom <> "66da3107684286d1eba45efb8eae9113"%string \/
  MD5.hexdigest (py_slice nemesis3_rom 0x14000 0x1a000)
    <> "61c33112a5a2cefd1df81dc1434aa42a"%string ->
  patch_py vkiller_rom nemesis3_rom kss_header compile sjasmplus
  = (Raise AssertionError, initial_world vkiller_rom nemesis3_rom).
Proof.
  intros H. unfold patch_py, script, initial_world.
  rewrite run_bind, run_on_rom, run_check_hash. cbn [rom scc_rom written fst snd].
  destruct (String.eqb (MD5.hexdigest vkiller_rom) _) eqn:E1; [|reflexivity].
  rewrite run_bind, run_get, run_bind, run_on_temp, run_check_hash.
  cbn [rom scc_rom written fst snd].
  destruct (String.eqb (MD5.hexdigest (py_slice nemesis3_rom _ _)) _) eqn:E2; [|reflexivity].
  apply String.eqb_eq in E1, E2. tauto.
Qed.
End ScriptFacts.

(** C5.  For every buffer whose MD5 hex digest differs from the expected
    value, [check_hash] raises [AssertionError] and leaves the buffer as it
    was; and in the script both digest checks come before the first write,
    so when either digest differs the run stops with the two images exactly
    as loaded and no file written. *)
Theorem digest_mismatch_aborts :
  (forall (data : bytearray) (expected_hash : string),
     MD5.hexdigest data <> expected_hash ->
     run (check_hash expected_hash) data = (Raise AssertionError, data)) /\
  (forall (vkiller_rom nemesis3_rom kss_header : bytearray)
          (compile : M bytearray unit)
          (sjasmplus : option (list (string * bytearray))),
     MD5.hexdigest vkiller_rom <> "66da3107684286d1eba45efb8eae9113"%string \/
     MD5.hexdigest (py_slice nemesis3_rom 0x14000 0x1a000)
       <> "61c33112a5a2cefd1df81dc1434aa42a"%string ->
     patch_py vkiller_rom nemesis3_rom kss_header compile sjasmplus
     = (Raise AssertionError, World vkiller_rom nemesis3_rom [])).
Proof.
  split.
  - apply run_check_hash_differs.
  - apply patch_py_mismatch.
Qed.

Lemma digest_mismatch_aborts_witness :
  run (check_hash "66da3107684286d1eba45efb8eae9113") [x00]
  = (Raise AssertionError, [x00]) /\
  patch_py [x00] [] [] (ret tt) None = (Raise AssertionError, World [x00] [] []).
Proof.
  split.
  - apply (proj1 digest_mismatch_aborts [x00]). by_eval.
  - apply (proj2 digest_mismatch_aborts [x00] [] [] (ret tt) None). left. by_eval.
Defined.

(** ** The fragment merge *)

Lemma py_range_snoc (lo hi : Z) :
  lo <= hi -> py_range lo (hi + 1) = py_range lo hi ++ [hi].
Proof.
  intros H. rewrite (py_range_split lo hi (hi + 1)) by lia.
  rewrite (py_range_cons hi) by lia. rewrite (py_range_empty (hi + 1)) by lia. reflexivity.
Qed.

(** After [n] iterations the first [n] bytes of the fragment are in place. *)
Lemma run_copy_prefix (rom data : bytearray) (offset : Z) (n : nat) :
  0 <= offset -> offset + Z.of_nat (length data) <= Z.of_nat (length rom) ->
  (n <= length data)%nat ->
  run (for_each (py_range 0 (Z.of_nat n)) (copy_byte offset data)) rom
  = (Val tt, take (Z.to_nat offset) rom ++ take n data
               ++ drop (Z.to_nat offset + n) rom).
Proof.
  intros Hoff Hlen. induction n as [|n IH]; intros Hn.
  - rewrite py_range_empty by lia. cbn [for_each]. rewrite run_ret. simpl take.
    rewrite Nat.add_0_r, app_nil_l, take_drop. reflexivity.
  - replace (Z.of_nat (Datatypes.S n)) with (Z.of_nat n + 1) by lia.
    rewrite py_range_snoc by lia. rewrite run_for_each_app, IH by lia.
    rewrite run_for_each_cons. unfold copy_byte at 1. rewrite Nat2Z.id.
    destruct (lookup_lt_is_Some_2 data n) as [b Hb]; [lia|].
    destruct (lookup_lt_is_Some_2 rom (Z.to_nat offset + n)) as [r Hr]; [lia|].
    rewrite Hb.
    assert (Hl : length (take (Z.to_nat offset) rom ++ take n data
                           ++ drop (Z.to_nat offset + n) rom) = length rom).
    { rewrite !length_app, !length_take, length_drop. lia. }
    rewrite run_setitem by (try apply byte_val_range; lia).
    cbn [for_each]. rewrite run_ret. f_equal. unfold poke. rewrite byte_of_val.
    rewrite insert_app_r_alt by (rewrite length_take; lia).
    rewrite insert_app_r_alt by (rewrite !length_take; lia).
    rewrite (drop_S _ _ _ Hr), (take_S_r _ _ _ Hb).
    replace (Z.to_nat (offset + Z.of_nat n) - length (take (Z.to_nat offset) rom)
             - length (take n data))%nat with 0%nat by (rewrite !length_take; lia).
    simpl. rewrite <- app_assoc. simpl.
    replace (Z.to_nat offset + Datatypes.S n)%nat with (Datatypes.S (Z.to_nat offset + n)) by lia.
    reflexivity.
Qed.

Lemma run_apply_patch (patch_filename : string) (offset : Z) (rom data : bytearray) :
  PyInt.int16 (substring 13 5 patch_filename) = Some offset ->
  0 <= offset -> offset + Z.of_nat (length data) <= Z.of_nat (length rom) ->
  merges_at patch_filename offset rom data.
Proof.
  intros Hname Hoff Hlen. unfold merges_at, apply_patch, merged. rewrite Hname.
  rewrite (run_copy_prefix rom data offset (length data)) by (assumption || lia).
  rewrite (take_ge data) by lia. reflexivity.
Qed.

Lemma length_merged (rom data : bytearray) (offset : Z) :
  0 <= offset -> offset + Z.of_nat (length data) <= Z.of_nat (length rom) ->
  length (merged rom data offset) = length rom.
Proof.
  intros Hoff Hlen. unfold merged. rewrite !length_app, length_take, length_drop. lia.
Qed.

Lemma lookup_merged (rom data : bytearray) (offset : Z) (j : nat) :
  0 <= offset -> offset + Z.of_nat (length data) <= Z.of_nat (length rom) ->
  merged rom data offset !! j =
  if (offset <=? Z.of_nat j) && (Z.of_nat j <? offset + Z.of_nat (length data))
  then data !! (j - Z.to_nat offset)%nat
  else rom !! j.
Proof.
  intros Hoff Hlen. unfold merged.
  destruct (offset <=? Z.of_nat j) eqn:E1; simpl.
  - apply Z.leb_le in E1.
    rewrite lookup_app_r by (rewrite length_take; lia).
    rewrite length_take. replace (Z.to_nat offset `min` length rom)%nat with (Z.to_nat offset) by lia.
    destruct (Z.of_nat j <? offset + Z.of_nat (length data)) eqn:E2.
    + apply Z.ltb_lt in E2. apply lookup_app_l. lia.
    + apply Z.ltb_ge in E2. rewrite lookup_app_r by lia.
      rewrite lookup_drop. f_equal. lia.
  - apply Z.leb_gt in E1. rewrite lookup_app_l by (rewrite length_take; lia).
    apply lookup_take_lt. lia.
Qed.

Lemma substring_0_0 (s : string) : substring 0 0 s = EmptyString.
Proof. destruct s; reflexivity. Qed.

(** The five characters after [vkiller_patch] are what is decoded. *)
Lemma offset_of_name_1a3f0 (suffix : string) :
  PyInt.int16 (substring 13 5 ("vkiller_patch1a3f0" ++ suffix)) = Some 0x1a3f0.
Proof. simpl substring. rewrite substring_0_0. reflexivity. Qed.

Lemma offset_of_name_01a3f0 (suffix : string) :
  PyInt.int16 (substring 13 5 ("vkiller_patch01a3f0" ++ suffix)) = Some 0x1a3f.
Proof. simpl substring. destruct suffix; reflexivity. Qed.

(** C7 (as amended).  A fragment whose name is [vkiller_patch], the five
    hex digits [1a3f0] and any suffix, merged into a buffer that reaches up
    to [0x1a3f0 + len(fragment)], overwrites exactly the [len(fragment)]
    bytes from index 0x1a3f0 on with the fragment's bytes and leaves every
    other byte and the length as they were.  Only the five characters 13..17
    of the name are decoded: with the six digits [01a3f0] after the prefix
    the fragment goes to 0x01a3f. *)
Theorem fragment_merge_five_digits (rom data : bytearray) (suffix : string) :
  0x1a3f0 + Z.of_nat (length data) <= Z.of_nat (length rom) ->
  merges_at ("vkiller_patch1a3f0" ++ suffix) 0x1a3f0 rom data /\
  length (merged rom data 0x1a3f0) = length rom /\
  (forall j : nat,
     merged rom data 0x1a3f0 !! j =
     if (0x1a3f0 <=? Z.of_nat j) && (Z.of_nat j <? 0x1a3f0 + Z.of_nat (length data))
     then data !! (j - Z.to_nat 0x1a3f0)%nat
     else rom !! j) /\
  merges_at ("vkiller_patch01a3f0" ++ suffix) 0x1a3f rom data.
Proof.
  intros Hlen. split; [|split; [|split]].
  - apply run_apply_patch; [apply offset_of_name_1a3f0|lia|assumption].
  - apply length_merged; [lia|assumption].
  - intros j. apply lookup_merged; [lia|assumption].
  - apply run_apply_patch; [apply offset_of_name_01a3f0|lia|lia].
Qed.

Lemma fragment_merge_five_digits_witness :
  merges_at "vkiller_patch1a3f0.bin" 0x1a3f0 (replicate (Z.to_nat 0x1a3f2) x00) [x01; x02].
Proof.
  refine (proj1 (fragment_merge_five_digits
                   (replicate (Z.to_nat 0x1a3f2) x00) [x01; x02] ".bin" _)).
  rewrite length_replicate. cbn [length]. lia.
Defined.

(** C7 (as stated) fails: from the name with the digits [01a3f0] the script
    decodes 0x1a3f, so the fragment lands at index 0x1a3f, outside the
    range the claim names, and index 0x1a3f0 keeps its byte. *)
Lemma fragment_merge_six_digits_counterexample :
  PyInt.int16 (substring 13 5 "vkiller_patch01a3f0.bin") = Some 0x1a3f /\
  (let rom' := snd (run (apply_patch ("vkiller_patch01a3f0.bin"%string, [xff]))
                        (replicate (Z.to_nat 0x1a3f1) x00)) in
   rom' !! Z.to_nat 0x1a3f = Some xff /\ rom' !! Z.to_nat 0x1a3f0 = Some x00) /\
  ~ merges_at "vkiller_patch01a3f0.bin" 0x1a3f0 (replicate (Z.to_nat 0x1a3f1) x00) [xff].
Proof.
  split; [reflexivity|]. split.
  - split; vm_compute; reflexivity.
  - unfold merges_at. intros H.
    apply (f_equal (fun r => snd r !! Z.to_nat 0x1a3f)) in H.
    vm_compute in H. discriminate.
Qed.

(** ** patch_music_channel_locations: one iteration *)

Lemma hi_e0_byte (b : byte) :
  hi_e0 (byte_val b) = (0xe0 <=? byte_val b) && (byte_val b <=? 0xe3).
Proof. destruct b; reflexivity. Qed.

Lemma hi_e0_peek (rom : bytearray) (j : Z) :
  hi_e0 (peek rom j) = (0xe0 <=? peek rom j) && (peek rom j <=? 0xe3).
Proof.
  unfold peek. destruct (rom !! Z.to_nat j); [apply hi_e0_byte|reflexivity].
Qed.

Lemma hi_e0_peek_true (rom : bytearray) (j : Z) :
  hi_e0 (peek rom j) = true -> 0xe0 <= peek rom j <= 0xe3.
Proof. rewrite hi_e0_peek. lia. Qed.

Lemma hi_e0_bumped (v : Z) : 0xe0 <= v <= 0xe3 -> hi_e0 (v + 0x0e) = false.
Proof.
  intros H. assert (E : v = 0xe0 \/ v = 0xe1 \/ v = 0xe2 \/ v = 0xe3) by lia.
  destruct E as [->|[->|[->| ->]]]; reflexivity.
Qed.

Lemma length_bump (rom : bytearray) (p : Z) : length (bump rom p) = length rom.
Proof. apply length_poke. Qed.

Lemma peek_bump_ne (rom : bytearray) (p j : Z) :
  0 <= p -> 0 <= j -> j <> p -> peek (bump rom p) j = peek rom j.
Proof. intros. apply peek_poke_ne; lia. Qed.

Lemma peek_bump_eq (rom : bytearray) (p : Z) :
  0 <= p < Z.of_nat (length rom) -> hi_e0 (peek rom p) = true ->
  peek (bump rom p) p = peek rom p + 0x0e.
Proof.
  intros Hp Hv%hi_e0_peek_true. apply peek_poke_eq; lia.
Qed.

(** Relocating by [CHANNEL_OFFSET] an operand whose high byte is 0xe0..0xe3. *)
Lemma run_offset_address_channel (rom : bytearray) (p : Z) :
  0 <= p -> p + 1 < Z.of_nat (length rom) -> hi_e0 (peek rom (p + 1)) = true ->
  run (offset_address p CHANNEL_OFFSET) rom = (Val tt, bump rom (p + 1)).
Proof.
  intros Hp Hlen Hv%hi_e0_peek_true. pose proof (peek_range rom p) as Hlo.
  unfold CHANNEL_OFFSET.
  rewrite run_offset_address by (unfold read16; lia).
  f_equal. unfold write16, read16, bump.
  replace ((peek rom p + 256 * peek rom (p + 1) + 3584) mod 256) with (peek rom p) by dlia.
  replace ((peek rom p + 256 * peek rom (p + 1) + 3584) / 256)
    with (peek rom (p + 1) + 14) by dlia.
  rewrite poke_peek. reflexivity.
Qed.

Lemma length_channel_step (rom : bytearray) (o : Z) :
  length (channel_step o rom) = length rom.
Proof.
  unfold channel_step, indexed_stage.
  destruct (py_in o PATCH_IGNORE_LIST); [reflexivity|].
  destruct (indexed_match rom o); cbv zeta;
    match goal with |- context [immediate_match ?r o] => destruct (immediate_match r o) end;
    rewrite ?length_bump; reflexivity.
Qed.

(** Inside the buffer an iteration returns, and acts as [channel_step]. *)
Lemma run_channel_body (rom : bytearray) (o : Z) :
  0 <= o -> o + 3 < Z.of_nat (length rom) ->
  run (channel_body o) rom = (Val tt, channel_step o rom).
Proof.
  intros Ho Hlen. unfold channel_body, channel_step, indexed_stage.
  destruct (py_in o PATCH_IGNORE_LIST); [reflexivity|].
  rewrite run_bind.
  assert (H1 : run (when ((b0 <~ getitem o ;; ret (b0 =? 0xdd)) &&&
                          (b1 <~ getitem (o + 1) ;; ret (b1 =? 0x21)) &&&
                          (b3 <~ getitem (o + 3) ;; ret (Z.land b3 0xfc =? 0xe0)))
                         (offset_address (o + 2) CHANNEL_OFFSET)) rom
               = (Val tt, if indexed_match rom o then bump rom (o + 3) else rom)).
  { unfold indexed_match. rewrite run_when, !run_and_then.
    rewrite run_bind, run_getitem, run_ret by lia.
    destruct (peek rom o =? 0xdd); [|reflexivity].
    rewrite run_bind, run_getitem, run_ret by lia.
    destruct (peek rom (o + 1) =? 0x21); [|reflexivity].
    rewrite run_bind, run_getitem, run_ret by lia.
    fold (hi_e0 (peek rom (o + 3))).
    destruct (hi_e0 (peek rom (o + 3))) eqn:E; [|reflexivity].
    simpl andb. cbv iota.
    replace (o + 3) with (o + 2 + 1) in * by lia.
    apply run_offset_address_channel; [lia|lia|assumption]. }
  rewrite H1. cbv zeta.
  set (rom1 := if indexed_match rom o then bump rom (o + 3) else rom).
  assert (Hl1 : length rom1 = length rom)
    by (unfold rom1; destruct (indexed_match rom o); rewrite ?length_bump; reflexivity).
  unfold immediate_match. rewrite run_when, run_and_then.
  rewrite run_bind, run_getitem, run_ret by lia.
  destruct (py_in (peek rom1 o) _); [|reflexivity].
  rewrite run_bind, run_getitem, run_ret by lia.
  fold (hi_e0 (peek rom1 (o + 2))).
  destruct (hi_e0 (peek rom1 (o + 2))) eqn:E; [|reflexivity].
  simpl andb. cbv iota.
  replace (o + 2) with (o + 1 + 1) in * by lia.
  apply run_offset_address_channel; [lia|lia|assumption].
Qed.

(** ** patch_music_channel_locations: the whole scan *)

Lemma scanned_later (k o : Z) : k <= o -> scanned k o = false.
Proof.
  intros H. unfold scanned.
  replace (o <? k) with false by (symmetry; apply Z.ltb_ge; lia).
  rewrite andb_false_r. reflexivity.
Qed.

Lemma scanned_succ_ne (k o : Z) : o <> k -> scanned (k + 1) o = scanned k o.
Proof.
  intros H. unfold scanned. f_equal. f_equal.
  destruct (o <? k) eqn:E; [apply Z.ltb_lt in E; apply Z.ltb_lt; lia|].
  apply Z.ltb_ge in E. apply Z.ltb_ge. lia.
Qed.

Lemma scanned_succ_eq (k : Z) :
  0x20000 <= k -> scanned (k + 1) k = negb (py_in k PATCH_IGNORE_LIST).
Proof.
  intros H. unfold scanned.
  replace (0x20000 <=? k) with true by (symmetry; apply Z.leb_le; lia).
  replace (k <? k + 1) with true by (symmetry; apply Z.ltb_lt; lia).
  reflexivity.
Qed.

(** A relocated byte held 0xe0..0xe3 when the scan started. *)
Lemma relocated_hi_e0 (k : Z) (rom : bytearray) (j : Z) :
  relocated k rom j = true -> hi_e0 (peek rom j) = true.
Proof.
  unfold relocated, indexed_match, immediate_match.
  replace (j - 3 + 3) with j by lia. replace (j - 2 + 2) with j by lia.
  intros H. apply orb_true_iff in H as [H|H];
    apply andb_true_iff in H as [_ H]; apply andb_true_iff in H as [_ H]; exact H.
Qed.

Lemma expected_cases (k : Z) (rom : bytearray) (j : Z) :
  expected k rom j = peek rom j \/
  (0xe0 <= peek rom j <= 0xe3 /\ expected k rom j = peek rom j + 0x0e).
Proof.
  unfold expected. destruct (relocated k rom j) eqn:E; [right|left; reflexivity].
  split; [|reflexivity]. apply hi_e0_peek_true. exact (relocated_hi_e0 _ _ _ E).
Qed.

(** The opcode tests do not tell a relocated byte from the original one. *)
Lemma same_opcode (v v' : Z) :
  v' = v \/ (0xe0 <= v <= 0xe3 /\ v' = v + 0x0e) ->
  (v' =? 0xdd) = (v =? 0xdd) /\ (v' =? 0x21) = (v =? 0x21) /\
  py_in v' [0x01; 0x11; 0x21; 0x32; 0x3a; 0x22; 0x2a]
  = py_in v [0x01; 0x11; 0x21; 0x32; 0x3a; 0x22; 0x2a].
Proof.
  intros [->|[Hv ->]]; [tauto|].
  assert (E : v = 0xe0 \/ v = 0xe1 \/ v = 0xe2 \/ v = 0xe3) by lia.
  destruct E as [->|[->|[->| ->]]]; repeat split; reflexivity.
Qed.

Section ScanInvariant.
Variable rom : bytearray.
Variable k : Z.
Variable cur : bytearray.
Hypothesis Hk : 0x20000 <= k.
Hypothesis Hlen : k + 3 < Z.of_nat (length cur).
Hypothesis Hcur : forall j, 0 <= j -> peek cur j = expected k rom j.

Lemma cur_cases (j : Z) :
  0 <= j ->
  peek cur j = peek rom j \/ (0xe0 <= peek rom j <= 0xe3 /\ peek cur j = peek rom j + 0x0e).
Proof. intros Hj. rewrite (Hcur j Hj). apply expected_cases. Qed.

(** Nothing tested so far has relocated the byte at [k + 3]. *)
Lemma cur_ahead : peek cur (k + 3) = peek rom (k + 3).
Proof.
  rewrite Hcur by lia. unfold expected, relocated.
  rewrite !scanned_later by lia. reflexivity.
Qed.

Lemma indexed_match_cur : indexed_match cur k = indexed_match rom k.
Proof.
  unfold indexed_match. rewrite cur_ahead.
  destruct (same_opcode _ _ (cur_cases k ltac:(lia))) as (-> & _ & _).
  destruct (same_opcode _ _ (cur_cases (k + 1) ltac:(lia))) as (_ & -> & _).
  reflexivity.
Qed.

Local Abbreviation rom1 := (indexed_stage k cur).

Lemma peek_rom1 (j : Z) : 0 <= j -> j <> k + 3 -> peek rom1 j = peek cur j.
Proof.
  intros Hj Hne. unfold indexed_stage. destruct (indexed_match cur k); [|reflexivity].
  apply peek_bump_ne; lia.
Qed.

Lemma peek_rom1_ahead :
  peek rom1 (k + 3) = if indexed_match rom k then peek rom (k + 3) + 0x0e else peek rom (k + 3).
Proof.
  unfold indexed_stage. rewrite indexed_match_cur.
  destruct (indexed_match rom k) eqn:E; [|apply cur_ahead].
  rewrite peek_bump_eq, cur_ahead; [reflexivity|lia|].
  rewrite cur_ahead. unfold indexed_match in E.
  apply andb_true_iff in E as [_ E]. exact E.
Qed.

Lemma length_rom1 : length rom1 = length cur.
Proof.
  unfold indexed_stage. destruct (indexed_match cur k); rewrite ?length_bump; reflexivity.
Qed.

Lemma immediate_match_rom1 :
  immediate_match rom1 k = immediate_match rom k && negb (relocated k rom (k + 2)).
Proof.
  unfold immediate_match. rewrite !peek_rom1 by lia.
  destruct (same_opcode _ _ (cur_cases k ltac:(lia))) as (_ & _ & ->).
  rewrite (Hcur (k + 2)) by lia. unfold expected.
  destruct (relocated k rom (k + 2)) eqn:E.
  - apply relocated_hi_e0, hi_e0_peek_true in E.
    rewrite hi_e0_bumped by assumption. rewrite !andb_false_r. reflexivity.
  - rewrite andb_true_r. reflexivity.
Qed.

Lemma relocated_succ (j : Z) :
  py_in k PATCH_IGNORE_LIST = false ->
  relocated (k + 1) rom j =
  relocated k rom j || ((j =? k + 3) && indexed_match rom k)
                    || ((j =? k + 2) && immediate_match rom k).
Proof.
  intros Hig. unfold relocated.
  destruct (Z.eq_dec j (k + 3)) as [->|H3].
  - replace (k + 3 - 3) with k by lia. rewrite scanned_succ_eq, Hig by lia.
    rewrite (scanned_succ_ne k (k + 3 - 2)) by lia.
    rewrite !scanned_later by lia. rewrite Z.eqb_refl.
    replace (k + 3 =? k + 2) with false by (symmetry; apply Z.eqb_neq; lia).
    simpl. rewrite orb_false_r. reflexivity.
  - replace (j =? k + 3) with false by (symmetry; apply Z.eqb_neq; lia).
    rewrite (scanned_succ_ne k (j - 3)) by lia. simpl. rewrite orb_false_r.
    destruct (Z.eq_dec j (k + 2)) as [->|H2].
    + replace (k + 2 - 2) with k by lia. rewrite scanned_succ_eq, Hig by lia.
      rewrite (scanned_later k k) by lia. rewrite Z.eqb_refl. simpl.
      rewrite orb_false_r. reflexivity.
    + replace (j =? k + 2) with false by (symmetry; apply Z.eqb_neq; lia).
      rewrite (scanned_succ_ne k (j - 2)) by lia. simpl. rewrite orb_false_r.
      reflexivity.
Qed.

Lemma relocated_succ_ignored (j : Z) :
  py_in k PATCH_IGNORE_LIST = true -> relocated (k + 1) rom j = relocated k rom j.
Proof.
  intros Hig. unfold relocated.
  assert (Hs : forall o, scanned (k + 1) o = scanned k o).
  { intros o. destruct (Z.eq_dec o k) as [->|Hne]; [|apply scanned_succ_ne; assumption].
    unfold scanned. rewrite Hig. rewrite !andb_false_r. reflexivity. }
  rewrite !Hs. reflexivity.
Qed.

(** The iteration at [k] takes the buffer expected before [k] to the one
    expected before [k + 1]. *)
Lemma channel_step_expected (j : Z) :
  0 <= j -> peek (channel_step k cur) j = expected (k + 1) rom j.
Proof.
  intros Hj. unfold channel_step.
  destruct (py_in k PATCH_IGNORE_LIST) eqn:Hig.
  { rewrite Hcur by assumption. unfold expected.
    rewrite relocated_succ_ignored by assumption. reflexivity. }
  cbv zeta. unfold expected at 1.
  rewrite relocated_succ by assumption.
  rewrite immediate_match_rom1.
  destruct (Z.eq_dec j (k + 3)) as [->|H3]; [|destruct (Z.eq_dec j (k + 2)) as [->|H2]].
  - assert (Hr : relocated k rom (k + 3) = false)
      by (unfold relocated; rewrite !scanned_later by lia; reflexivity).
    rewrite Hr, Z.eqb_refl.
    replace (k + 3 =? k + 2) with false by (symmetry; apply Z.eqb_neq; lia).
    simpl. rewrite orb_false_r.
    destruct (immediate_match rom k && negb (relocated k rom (k + 2)));
      [rewrite peek_bump_ne by lia|]; apply peek_rom1_ahead.
  - replace (k + 2 =? k + 3) with false by (symmetry; apply Z.eqb_neq; lia).
    rewrite Z.eqb_refl. simpl. rewrite orb_false_r.
    pose proof (Hcur (k + 2) ltac:(lia)) as Hc. unfold expected in Hc.
    destruct (relocated k rom (k + 2)) eqn:Hr.
    + rewrite andb_false_r. simpl. rewrite peek_rom1 by lia. exact Hc.
    + rewrite andb_true_r. simpl.
      destruct (immediate_match rom k) eqn:Him.
      * rewrite peek_bump_eq; rewrite ?length_rom1, ?peek_rom1 by lia;
          [rewrite Hc; reflexivity|lia|].
        rewrite Hc. unfold immediate_match in Him.
        apply andb_true_iff in Him as [_ Him]. exact Him.
      * rewrite peek_rom1 by lia. exact Hc.
  - replace (j =? k + 3) with false by (symmetry; apply Z.eqb_neq; lia).
    replace (j =? k + 2) with false by (symmetry; apply Z.eqb_neq; lia).
    simpl. rewrite !orb_false_r.
    destruct (immediate_match rom k && negb (relocated k rom (k + 2)));
      [rewrite peek_bump_ne by lia|]; rewrite peek_rom1 by lia;
      rewrite Hcur by assumption; reflexivity.
Qed.
End ScanInvariant.

Lemma scanned_start (o : Z) : scanned 0x20000 o = false.
Proof.
  unfold scanned. destruct (0x20000 <=? o) eqn:E; [|reflexivity].
  apply Z.leb_le in E. replace (o <? 0x20000) with false by (symmetry; apply Z.ltb_ge; lia).
  reflexivity.
Qed.

(** After the offsets before [0x20000 + n] the buffer is the expected one. *)
Lemma channel_scan_expected (rom : bytearray) (n : nat) :
  0x213f3 <= Z.of_nat (length rom) -> 0x20000 + Z.of_nat n <= 0x213f0 ->
  let cur := fold_left (fun s o => channel_step o s)
                       (py_range 0x20000 (0x20000 + Z.of_nat n)) rom in
  length cur = length rom /\
  forall j, 0 <= j -> peek cur j = expected (0x20000 + Z.of_nat n) rom j.
Proof.
  intros Hlen. induction n as [|n IH]; intros Hn cur; subst cur.
  - rewrite py_range_empty by lia. split; [reflexivity|].
    intros j _. unfold expected, relocated. cbn [fold_left].
    replace (0x20000 + Z.of_nat 0) with 0x20000 by lia.
    rewrite !scanned_start. reflexivity.
  - replace (0x20000 + Z.of_nat (Datatypes.S n)) with (0x20000 + Z.of_nat n + 1) by lia.
    rewrite py_range_snoc by lia. rewrite fold_left_app. cbn [fold_left].
    destruct IH as [IHl IHp]; [lia|]. split.
    + rewrite length_channel_step. exact IHl.
    + intros j Hj. apply channel_step_expected; [lia|lia|exact IHp|exact Hj].
Qed.

Lemma run_channel_pass (rom : bytearray) :
  0x213f3 <= Z.of_nat (length rom) ->
  run patch_music_channel_locations rom = (Val tt, channel_pass rom) /\
  length (channel_pass rom) = length rom.
Proof.
  intros Hlen. unfold patch_music_channel_locations, channel_pass.
  apply (run_for_each_fold (fun s => length s = length rom)); [|reflexivity].
  intros o s Ho%elem_of_py_range Hs. split.
  - apply run_channel_body; lia.
  - rewrite length_channel_step. exact Hs.
Qed.

(** What the pass leaves at every index, read off the buffer it started
    from. *)
Lemma peek_channel_pass (rom : bytearray) (j : Z) :
  0x213f3 <= Z.of_nat (length rom) -> 0 <= j ->
  peek (channel_pass rom) j = expected 0x213f0 rom j.
Proof.
  intros Hlen Hj. unfold channel_pass.
  pose proof (channel_scan_expected rom (Z.to_nat (0x213f0 - 0x20000)) Hlen) as H.
  replace (0x20000 + Z.of_nat (Z.to_nat (0x213f0 - 0x20000))) with 0x213f0 in H by lia.
  apply H; [lia|exact Hj].
Qed.

Lemma scanned_inside (o : Z) :
  0x20000 <= o < 0x213f0 -> ~ In o PATCH_IGNORE_LIST -> scanned 0x213f0 o = true.
Proof.
  intros Ho Hig. unfold scanned. apply py_in_false in Hig. rewrite Hig.
  replace (0x20000 <=? o) with true by (symmetry; apply Z.leb_le; lia).
  replace (o <? 0x213f0) with true by (symmetry; apply Z.ltb_lt; lia).
  reflexivity.
Qed.


(** A byte outside 0xe0..0xe3 is never changed by the pass. *)
Lemma expected_other (k : Z) (rom : bytearray) (j : Z) :
  hi_e0 (peek rom j) = false -> expected k rom j = peek rom j.
Proof.
  intros H. unfold expected. destruct (relocated k rom j) eqn:E; [|reflexivity].
  apply relocated_hi_e0 in E. congruence.
Qed.

(** C8 (as amended).  On the four-byte buffer [0xDD, 0x21, 0x34, 0xE0]
    itself the scan, which starts at index 0x20000, raises [IndexError] and
    leaves the buffer as it was.  In a buffer of length at least 0x213f3
    that holds these four bytes at an offset [o] of the scan range
    [0x20000, 0x213f0) that is not on the ignore list, the pass returns and
    rewrites the bytes at [o + 2] and [o + 3] to 0x34 and 0xEE
    (0xE034 + 0x0E00 = 0xEE34), leaving those at [o] and [o + 1] unchanged. *)
Theorem channel_relocates_indexed_load :
  run patch_music_channel_locations [xdd; x21; x34; xe0]
  = (Raise IndexError, [xdd; x21; x34; xe0]) /\
  forall (rom : bytearray) (o : Z),
    0x213f3 <= Z.of_nat (length rom) ->
    0x20000 <= o < 0x213f0 -> ~ In o PATCH_IGNORE_LIST ->
    peek rom o = 0xdd -> peek rom (o + 1) = 0x21 ->
    peek rom (o + 2) = 0x34 -> peek rom (o + 3) = 0xe0 ->
    exists rom',
      run patch_music_channel_locations rom = (Val tt, rom') /\
      length rom' = length rom /\
      peek rom' o = 0xdd /\ peek rom' (o + 1) = 0x21 /\
      peek rom' (o + 2) = 0x34 /\ peek rom' (o + 3) = 0xee.
Proof.
  split; [vm_compute; reflexivity|].
  intros rom o Hlen Ho Hig H0 H1 H2 H3. exists (channel_pass rom).
  destruct (run_channel_pass rom Hlen) as [Hrun Hl].
  split; [exact Hrun|]. split; [exact Hl|].
  rewrite !peek_channel_pass by lia.
  rewrite (expected_other _ rom o) by (rewrite H0; reflexivity).
  rewrite (expected_other _ rom (o + 1)) by (rewrite H1; reflexivity).
  rewrite (expected_other _ rom (o + 2)) by (rewrite H2; reflexivity).
  split; [exact H0|]. split; [exact H1|]. split; [exact H2|].
  unfold expected, relocated. replace (o + 3 - 3) with o by lia.
  rewrite scanned_inside by assumption.
  unfold indexed_match at 1. rewrite H0, H1, H3. reflexivity.
Qed.

Lemma channel_relocates_indexed_load_witness :
  exists rom',
    run patch_music_channel_locations
        (replicate (Z.to_nat 0x20000) x00 ++ [xdd; x21; x34; xe0]
           ++ replicate (Z.to_nat 0x13ef) x00)
    = (Val tt, rom') /\
    length rom' = length (replicate (Z.to_nat 0x20000) x00 ++ [xdd; x21; x34; xe0]
                            ++ replicate (Z.to_nat 0x13ef) x00) /\
    peek rom' 0x20000 = 0xdd /\ peek rom' 0x20001 = 0x21 /\
    peek rom' 0x20002 = 0x34 /\ peek rom' 0x20003 = 0xee.
Proof.
  refine (proj2 channel_relocates_indexed_load
            (replicate (Z.to_nat 0x20000) x00 ++ [xdd; x21; x34; xe0]
               ++ replicate (Z.to_nat 0x13ef) x00) 0x20000 _ _ _ _ _ _ _).
  - rewrite !length_app, !length_replicate. cbn [length]. lia.
  - lia.
  - simpl. lia.
  - vm_compute. reflexivity.
  - vm_compute. reflexivity.
  - vm_compute. reflexivity.
  - vm_compute. reflexivity.
Defined.

(** ** The ignore list *)


(** C8 (as stated) fails: the four-byte buffer is not reached by the scan,
    which raises [IndexError] at its first subscript, index 0x20000, and
    leaves bytes 2 and 3 as they were. *)
Lemma channel_relocates_indexed_load_counterexample :
  run patch_music_channel_locations [xdd; x21; x34; xe0]
  = (Raise IndexError, [xdd; x21; x34; xe0]) /\
  run patch_music_channel_locations [xdd; x21; x34; xe0]
  <> (Val tt, [xdd; x21; x34; xee]).
Proof.
  split; [vm_compute; reflexivity|]. vm_compute. discriminate.
Qed.




(** ** The bounds of the scan *)

Lemma touches_offset_address (P : Z -> Prop) (p delta : Z) :
  0 <= p -> P p -> P (p + 1) -> touches P (offset_address p delta).
Proof.
  intros Hp H0 H1. unfold offset_address.
  apply touches_bind; [apply touches_getitem; assumption|]. intros lo.
  apply touches_bind; [apply touches_getitem; [lia|assumption]|]. intros hi.
  apply touches_bind; [apply touches_setitem; assumption|]. intros _.
  apply touches_setitem; [lia|assumption].
Qed.

Lemma touches_channel_body (P : Z -> Prop) (o : Z) :
  0 <= o -> P o -> P (o + 1) -> P (o + 2) -> P (o + 3) -> touches P (channel_body o).
Proof.
  intros Ho H0 H1 H2 H3. unfold channel_body.
  destruct (py_in o PATCH_IGNORE_LIST); [apply touches_ret|].
  apply touches_bind; [|intros _].
  - apply touches_when; [repeat apply touches_and_then|].
    + apply touches_bind; [apply touches_getitem; assumption|intros; apply touches_ret].
    + apply touches_bind; [apply touches_getitem; [lia|assumption]|intros; apply touches_ret].
    + apply touches_bind; [apply touches_getitem; [lia|assumption]|intros; apply touches_ret].
    + apply touches_offset_address; [lia|assumption|].
      replace (o + 2 + 1) with (o + 3) by lia. assumption.
  - apply touches_when; [apply touches_and_then|].
    + apply touches_bind; [apply touches_getitem; assumption|intros; apply touches_ret].
    + apply touches_bind; [apply touches_getitem; [lia|assumption]|intros; apply touches_ret].
    + apply touches_offset_address; [lia|assumption|].
      replace (o + 1 + 1) with (o + 2) by lia. assumption.
Qed.

Lemma run_getitem_cases (rom : bytearray) (i : Z) :
  0 <= i ->
  (i < Z.of_nat (length rom) /\ run (getitem i) rom = (Val (peek rom i), rom)) \/
  (Z.of_nat (length rom) <= i /\ run (getitem i) rom = (Raise IndexError, rom)).
Proof.
  intros Hi. destruct (Z_lt_le_dec i (Z.of_nat (length rom))) as [H|H].
  - left. split; [assumption|]. apply run_getitem. lia.
  - right. split; [assumption|]. apply run_getitem_outside. assumption.
Qed.

(** An action that either returns with the length kept or raises
    [IndexError] with the length kept. *)
Lemma indexed_block_outcome (rom : bytearray) (o : Z) :
  0 <= o ->
  exists r rom',
    run (when ((b0 <~ getitem o ;; ret (b0 =? 0xdd)) &&&
               (b1 <~ getitem (o + 1) ;; ret (b1 =? 0x21)) &&&
               (b3 <~ getitem (o + 3) ;; ret (Z.land b3 0xfc =? 0xe0)))
              (offset_address (o + 2) CHANNEL_OFFSET)) rom = (r, rom') /\
    length rom' = length rom /\ (r = Val tt \/ r = Raise IndexError).
Proof.
  intros Ho. rewrite run_when, !run_and_then, run_bind.
  destruct (run_getitem_cases rom o Ho) as [[H0 ->]|[H0 ->]]; [|eauto 6].
  rewrite run_ret. destruct (peek rom o =? 0xdd); [|eauto 6].
  rewrite run_bind.
  destruct (run_getitem_cases rom (o + 1) ltac:(lia)) as [[H1 ->]|[H1 ->]]; [|eauto 6].
  rewrite run_ret. destruct (peek rom (o + 1) =? 0x21); [|eauto 6].
  rewrite run_bind.
  destruct (run_getitem_cases rom (o + 3) ltac:(lia)) as [[H3 ->]|[H3 ->]]; [|eauto 6].
  rewrite run_ret. fold (hi_e0 (peek rom (o + 3))).
  destruct (hi_e0 (peek rom (o + 3))) eqn:E; [|eauto 6].
  rewrite run_offset_address_channel;
    [|lia|lia|replace (o + 2 + 1) with (o + 3) by lia; assumption].
  exists (Val tt), (bump rom (o + 2 + 1)). rewrite length_bump. auto.
Qed.

Lemma immediate_block_outcome (rom : bytearray) (o : Z) :
  0 <= o ->
  exists r rom',
    run (when ((b0 <~ getitem o ;;
                ret (py_in b0 [0x01; 0x11; 0x21; 0x32; 0x3a; 0x22; 0x2a])) &&&
               (b2 <~ getitem (o + 2) ;; ret (Z.land b2 0xfc =? 0xe0)))
              (offset_address (o + 1) CHANNEL_OFFSET)) rom = (r, rom') /\
    length rom' = length rom /\ (r = Val tt \/ r = Raise IndexError).
Proof.
  intros Ho. rewrite run_when, !run_and_then, run_bind.
  destruct (run_getitem_cases rom o Ho) as [[H0 ->]|[H0 ->]]; [|eauto 6].
  rewrite run_ret. destruct (py_in (peek rom o) _); [|eauto 6].
  rewrite run_bind.
  destruct (run_getitem_cases rom (o + 2) ltac:(lia)) as [[H2 ->]|[H2 ->]]; [|eauto 6].
  rewrite run_ret. fold (hi_e0 (peek rom (o + 2))).
  destruct (hi_e0 (peek rom (o + 2))) eqn:E; [|eauto 6].
  rewrite run_offset_address_channel;
    [|lia|lia|replace (o + 1 + 1) with (o + 2) by lia; assumption].
  exists (Val tt), (bump rom (o + 1 + 1)). rewrite length_bump. auto.
Qed.

Lemma channel_body_outcome (rom : bytearray) (o : Z) :
  0 <= o ->
  exists r rom',
    run (channel_body o) rom = (r, rom') /\
    length rom' = length rom /\ (r = Val tt \/ r = Raise IndexError).
Proof.
  intros Ho. unfold channel_body.
  destruct (py_in o PATCH_IGNORE_LIST); [exists (Val tt), rom; auto|].
  rewrite run_bind.
  destruct (indexed_block_outcome rom o Ho) as (r & rom1 & -> & Hl1 & [->| ->]); [|eauto 6].
  destruct (immediate_block_outcome rom1 o Ho) as (r & rom2 & -> & Hl2 & Hr).
  exists r, rom2. split; [reflexivity|]. split; [congruence|exact Hr].
Qed.

Lemma channel_loop_outcome (xs : list Z) (rom : bytearray) :
  (forall o, o ∈ xs -> 0 <= o) ->
  exists r rom',
    run (for_each xs channel_body) rom = (r, rom') /\
    length rom' = length rom /\ (r = Val tt \/ r = Raise IndexError).
Proof.
  revert rom. induction xs as [|o xs IH]; intros rom Hxs.
  - exists (Val tt), rom. auto.
  - rewrite run_for_each_cons.
    destruct (channel_body_outcome rom o) as (r & rom1 & -> & Hl1 & [->| ->]);
      [apply Hxs; left| |eauto 6].
    destruct (IH rom1) as (r & rom2 & -> & Hl2 & Hr);
      [intros o' Ho'; apply Hxs; right; assumption|].
    exists r, rom2. split; [reflexivity|]. split; [congruence|exact Hr].
Qed.

(** A buffer that does not reach index 0x213ef stops the scan. *)
Lemma run_channel_short (rom : bytearray) :
  Z.of_nat (length rom) < 0x213f0 ->
  exists rom', run patch_music_channel_locations rom = (Raise IndexError, rom').
Proof.
  intros Hlen. unfold patch_music_channel_locations.
  rewrite (py_range_split 0x20000 0x213ef 0x213f0) by lia. rewrite run_for_each_app.
  destruct (channel_loop_outcome (py_range 0x20000 0x213ef) rom)
    as (r & rom1 & -> & Hl1 & [->| ->]);
    [intros o Ho%elem_of_py_range; lia| |eauto].
  rewrite py_range_cons by lia. rewrite py_range_empty by lia.
  rewrite run_for_each_cons.
  unfold channel_body. change (py_in 0x213ef PATCH_IGNORE_LIST) with false. cbv iota.
  rewrite run_bind, run_when, !run_and_then, run_bind.
  rewrite run_getitem_outside by lia. eauto.
Qed.

(** A buffer that reaches index 0x213ef and holds none of the opcodes in
    the scan range is read at [offset] only, and left as it is. *)
Lemma run_channel_no_opcode (rom : bytearray) :
  0x213f0 <= Z.of_nat (length rom) ->
  (forall o, 0x20000 <= o < 0x213f0 ->
             (peek rom o =? 0xdd) = false /\
             py_in (peek rom o) [0x01; 0x11; 0x21; 0x32; 0x3a; 0x22; 0x2a] = false) ->
  run patch_music_channel_locations rom = (Val tt, rom).
Proof.
  intros Hlen Hop. unfold patch_music_channel_locations.
  destruct (run_for_each_fold (fun s => s = rom) (fun _ s => s) channel_body
              (py_range 0x20000 0x213f0) rom) as [Hrun Hfold]; [|reflexivity|].
  - intros o s Ho%elem_of_py_range ->. split; [|reflexivity].
    unfold channel_body. destruct (py_in o PATCH_IGNORE_LIST); [reflexivity|].
    destruct (Hop o Ho) as [Hdd Hfam].
    rewrite run_bind, run_when, !run_and_then, run_bind, run_getitem, run_ret by lia.
    rewrite Hdd. cbv iota.
    rewrite run_when, run_and_then, run_bind, run_getitem, run_ret by lia.
    rewrite Hfam. reflexivity.
  - rewrite Hrun, Hfold. reflexivity.
Qed.

Lemma peek_zeros (n : nat) (j : Z) : peek (replicate n x00) j = 0.
Proof.
  unfold peek. destruct (replicate n x00 !! Z.to_nat j) as [b|] eqn:E; [|reflexivity].
  apply lookup_replicate in E as [-> _]. reflexivity.
Qed.

(** C10 (as amended).  [patch_music_channel_locations] subscripts only
    indices of [0x20000, 0x213f2], whatever the buffer.  On every buffer of
    length at least 0x213f3 no subscript is out of bounds: the pass returns
    and keeps the length.  On every buffer shorter than 0x213f0 a subscript
    is out of bounds: the pass raises [IndexError].  For the lengths 0x213f0
    to 0x213f2 it depends on the contents, since [rom[offset + 1]],
    [rom[offset + 2]] and [rom[offset + 3]] are read only after the opcode
    byte at [offset] has matched: a buffer of length at least 0x213f0 with
    no opcode byte in the scan range is scanned to the end and left as it
    is. *)
Theorem channel_scan_bounds :
  (forall rom : bytearray,
     Forall (fun i => 0x20000 <= i <= 0x213f2)
            (accesses patch_music_channel_locations rom)) /\
  (forall rom : bytearray,
     0x213f3 <= Z.of_nat (length rom) ->
     exists rom',
       run patch_music_channel_locations rom = (Val tt, rom') /\
       length rom' = length rom) /\
  (forall rom : bytearray,
     Z.of_nat (length rom) < 0x213f0 ->
     exists rom', run patch_music_channel_locations rom = (Raise IndexError, rom')) /\
  (forall rom : bytearray,
     0x213f0 <= Z.of_nat (length rom) ->
     (forall o, 0x20000 <= o < 0x213f0 ->
                (peek rom o =? 0xdd) = false /\
                py_in (peek rom o) [0x01; 0x11; 0x21; 0x32; 0x3a; 0x22; 0x2a] = false) ->
     run patch_music_channel_locations rom = (Val tt, rom)).
Proof.
  split; [|split; [|split]].
  - intros rom. unfold patch_music_channel_locations.
    apply touches_for_each. intros o Ho%elem_of_py_range.
    apply touches_channel_body; lia.
  - intros rom Hlen. exists (channel_pass rom). apply run_channel_pass. exact Hlen.
  - apply run_channel_short.
  - apply run_channel_no_opcode.
Qed.

Lemma channel_scan_bounds_witness :
  (exists rom',
     run patch_music_channel_locations indexed_at_ignored = (Val tt, rom') /\
     length rom' = length indexed_at_ignored) /\
  (exists rom', run patch_music_channel_locations [xdd; x21; x34; xe0]
                = (Raise IndexError, rom')).
Proof.
  split.
  - apply (proj1 (proj2 channel_scan_bounds) indexed_at_ignored).
    unfold indexed_at_ignored. rewrite !length_app, !length_replicate. cbn [length]. lia.
  - apply (proj1 (proj2 (proj2 channel_scan_bounds)) [xdd; x21; x34; xe0]).
    simpl. lia.
Defined.

(** C10 (as stated) fails: the buffer of 0x213f0 zero bytes is shorter than
    0x213f3, and the pass scans it to the end without any subscript out of
    bounds, because no opcode byte matches and only [rom[offset]] is read. *)
Lemma channel_scan_bounds_counterexample :
  Z.of_nat (length (replicate (Z.to_nat 0x213f0) x00)) < 0x213f3 /\
  run patch_music_channel_locations (replicate (Z.to_nat 0x213f0) x00)
  = (Val tt, replicate (Z.to_nat 0x213f0) x00) /\
  ~ out_of_bounds_iff_short (replicate (Z.to_nat 0x213f0) x00).
Proof.
  assert (Hlen : Z.of_nat (length (replicate (Z.to_nat 0x213f0) x00)) = 0x213f0)
    by (rewrite length_replicate; lia).
  assert (Hrun : run patch_music_channel_locations (replicate (Z.to_nat 0x213f0) x00)
                 = (Val tt, replicate (Z.to_nat 0x213f0) x00)).
  { apply run_channel_no_opcode; [lia|].
    intros o _. rewrite peek_zeros. split; reflexivity. }
  split; [lia|]. split; [exact Hrun|].
  unfold out_of_bounds_iff_short. rewrite Hrun, Hlen. cbn [fst].
  intros [_ H]. specialize (H ltac:(lia)). discriminate.
Qed.

(** * Further properties of the functions *)

(** ** offset_address outside the buffer and in sequence *)

(** X1.  When the two bytes of the operand are not both inside the buffer,
    [offset_address] raises [IndexError] and leaves the buffer as it was:
    both reads come before the first write. *)
Theorem offset_address_outside (rom : bytearray) (i delta : Z) :
  0 <= i -> Z.of_nat (length rom) <= i + 1 ->
  run (offset_address i delta) rom = (Raise IndexError, rom).
Proof.
  intros Hi Hlen. unfold offset_address. rewrite run_bind.
  destruct (run_getitem_cases rom i Hi) as [[H0 ->]|[H0 ->]]; [|reflexivity].
  rewrite run_bind, run_getitem_outside by lia. reflexivity.
Qed.

Lemma offset_address_outside_witness :
  run (offset_address 1 0x0e00) [x34; xe0] = (Raise IndexError, [x34; xe0]).
Proof.
  apply (offset_address_outside [x34; xe0] 1 0x0e00).
  - lia.
  - simpl. lia.
Defined.

(** X2.  Two relocations of the same operand add up: when the value after
    the first delta and the value after both are 16-bit values, relocating
    by [d1] and then by [d2] is relocating by [d1 + d2]. *)
Theorem offset_address_adds (rom : bytearray) (i d1 d2 : Z) :
  0 <= i -> i + 1 < Z.of_nat (length rom) ->
  0 <= read16 rom i + d1 < 65536 ->
  0 <= read16 rom i + d1 + d2 < 65536 ->
  run (offset_address i d1 ;;; offset_address i d2) rom
  = run (offset_address i (d1 + d2)) rom.
Proof.
  intros Hi Hlen H1 H2.
  rewrite run_bind, run_offset_address by assumption.
  rewrite run_offset_address;
    [|assumption|unfold write16; rewrite !length_poke; assumption
     |rewrite read16_write16 by assumption; assumption].
  rewrite read16_write16, write16_write16 by assumption.
  rewrite run_offset_address by (assumption || lia).
  do 2 f_equal. lia.
Qed.

Lemma offset_address_adds_witness :
  run (offset_address 0 0x0e00 ;;; offset_address 0 (- 0xc000)) [x34; xe0]
  = run (offset_address 0 (0x0e00 + - 0xc000)) [x34; xe0].
Proof.
  apply (offset_address_adds [x34; xe0] 0 0x0e00 (- 0xc000)).
  - lia.
  - simpl. lia.
  - by_eval.
  - by_eval.
Defined.

(** ** patch_mapper, byte by byte *)

(** The values 0x32 and 0x00 are told apart from an operand before and
    after its increment alike. *)
Lemma same_mapper_opcode (v v' : Z) :
  v' = v \/ (In v [0x60; 0x80; 0xa0] /\ v' = v + 0x10) ->
  (v' =? 0x32) = (v =? 0x32) /\ (v' =? 0x00) = (v =? 0x00).
Proof.
  intros [->|[Hv ->]]; [tauto|].
  simpl in Hv. destruct Hv as [<-|[<-|[<-|[]]]]; split; reflexivity.
Qed.

Lemma mapper_expected_cases (k : Z) (rom : bytearray) (j : Z) :
  mapper_expected k rom j = peek rom j \/
  (In (peek rom j) [0x60; 0x80; 0xa0] /\ mapper_expected k rom j = peek rom j + 0x10).
Proof.
  unfold mapper_expected.
  destruct ((2 <=? j) && (j - 2 <? k) && mapper_match rom (j - 2)) eqn:E;
    [right|left; reflexivity].
  split; [|reflexivity].
  apply andb_true_iff in E as [_ E]. unfold mapper_match in E.
  apply andb_true_iff in E as [_ E]. apply py_in_true in E.
  replace (j - 2 + 2) with j in E by lia. exact E.
Qed.

Section MapperInvariant.
Variable rom : bytearray.
Variable k : Z.
Variable cur : bytearray.
Hypothesis Hk : 0 <= k.
Hypothesis Hlen : k + 2 < Z.of_nat (length cur).
Hypothesis Hcur : forall j, 0 <= j -> peek cur j = mapper_expected k rom j.

Lemma mapper_cur_cases (j : Z) :
  0 <= j ->
  peek cur j = peek rom j \/
  (In (peek rom j) [0x60; 0x80; 0xa0] /\ peek cur j = peek rom j + 0x10).
Proof. intros Hj. rewrite (Hcur j Hj). apply mapper_expected_cases. Qed.

Lemma mapper_cur_ahead : peek cur (k + 2) = peek rom (k + 2).
Proof.
  rewrite Hcur by lia. unfold mapper_expected.
  replace (k + 2 - 2 <? k) with false by (symmetry; apply Z.ltb_ge; lia).
  rewrite andb_false_r. reflexivity.
Qed.

Lemma mapper_match_cur : mapper_match cur k = mapper_match rom k.
Proof.
  unfold mapper_match. rewrite mapper_cur_ahead.
  destruct (same_mapper_opcode _ _ (mapper_cur_cases k ltac:(lia))) as (-> & _).
  destruct (same_mapper_opcode _ _ (mapper_cur_cases (k + 1) ltac:(lia))) as (_ & ->).
  reflexivity.
Qed.

(** The iteration at [k] takes the buffer expected before [k] to the one
    expected before [k + 1]. *)
Lemma mapper_step_expected (j : Z) :
  0 <= j -> peek (mapper_step k cur) j = mapper_expected (k + 1) rom j.
Proof.
  intros Hj. destruct (Z.eq_dec j (k + 2)) as [->|Hne].
  - unfold mapper_expected. replace (k + 2 - 2) with k by lia.
    replace (2 <=? k + 2) with true by (symmetry; apply Z.leb_le; lia).
    replace (k <? k + 1) with true by (symmetry; apply Z.ltb_lt; lia).
    simpl andb. destruct (mapper_match rom k) eqn:E.
    + rewrite peek_mapper_step_match by (lia || rewrite mapper_match_cur; exact E).
      rewrite mapper_cur_ahead. reflexivity.
    + unfold mapper_step. rewrite mapper_match_cur, E. apply mapper_cur_ahead.
  - rewrite peek_mapper_step_ne by lia. rewrite Hcur by assumption.
    unfold mapper_expected.
    assert (E : (j - 2 <? k + 1) = (j - 2 <? k)).
    { destruct (j - 2 <? k) eqn:E; [apply Z.ltb_lt in E; apply Z.ltb_lt; lia|].
      apply Z.ltb_ge in E. apply Z.ltb_ge. lia. }
    rewrite E. reflexivity.
Qed.
End MapperInvariant.

Lemma mapper_scan_expected (rom : bytearray) (n : nat) :
  Z.of_nat n <= Z.of_nat (length rom) - 2 ->
  let cur := fold_left (fun s o => mapper_step o s) (py_range 0 (Z.of_nat n)) rom in
  length cur = length rom /\
  forall j, 0 <= j -> peek cur j = mapper_expected (Z.of_nat n) rom j.
Proof.
  induction n as [|n IH]; intros Hn cur; subst cur.
  - rewrite py_range_empty by lia. split; [reflexivity|].
    intros j Hj. unfold mapper_expected. cbn [fold_left].
    destruct (2 <=? j) eqn:E; [|reflexivity]. apply Z.leb_le in E.
    replace (j - 2 <? Z.of_nat 0) with false by (symmetry; apply Z.ltb_ge; lia).
    reflexivity.
  - replace (Z.of_nat (Datatypes.S n)) with (Z.of_nat n + 1) by lia.
    rewrite py_range_snoc by lia. rewrite fold_left_app. cbn [fold_left].
    destruct IH as [IHl IHp]; [lia|]. split.
    + rewrite length_mapper_step. exact IHl.
    + intros j Hj. apply mapper_step_expected; [lia|lia|exact IHp|exact Hj].
Qed.

(** X3.  On every buffer [patch_mapper] returns and keeps the length, and
    the byte it leaves at an index [j] is the old byte plus 0x10 when the
    three bytes ending at [j] were 0x32, 0x00 and one of 0x60, 0x80, 0xa0,
    and the old byte in every other case: nothing but the operand of a
    mapper write is changed. *)
Theorem patch_mapper_byte_by_byte (rom : bytearray) :
  exists rom',
    run patch_mapper rom = (Val tt, rom') /\
    length rom' = length rom /\
    forall j, 0 <= j ->
      peek rom' j =
      if (2 <=? j) && mapper_match rom (j - 2) then peek rom j + 0x10 else peek rom j.
Proof.
  exists (mapper_pass rom). destruct (run_patch_mapper rom) as [Hrun Hl].
  split; [exact Hrun|]. split; [exact Hl|]. intros j Hj.
  destruct (Z_lt_le_dec (Z.of_nat (length rom)) 2) as [Hshort|Hlong].
  - unfold mapper_pass. rewrite py_range_empty by lia. cbn [fold_left].
    destruct (2 <=? j) eqn:E; [|reflexivity]. apply Z.leb_le in E.
    unfold mapper_match. replace (j - 2 + 2) with j by lia.
    assert (Hp : peek rom j = 0)
      by (unfold peek; rewrite (proj2 (lookup_ge_None rom (Z.to_nat j))) by lia; reflexivity).
    rewrite Hp. rewrite andb_false_r. reflexivity.
  - pose proof (mapper_scan_expected rom (Z.to_nat (Z.of_nat (length rom) - 2))) as H.
    rewrite Z2Nat.id in H by lia. destruct H as [_ H]; [lia|].
    unfold mapper_pass. rewrite H by exact Hj. unfold mapper_expected.
    destruct (2 <=? j) eqn:E2; [|reflexivity]. apply Z.leb_le in E2. simpl andb.
    destruct (j - 2 <? Z.of_nat (length rom) - 2) eqn:E; [reflexivity|].
    apply Z.ltb_ge in E. simpl andb. unfold mapper_match.
    replace (j - 2 + 2) with j by lia.
    assert (Hp : peek rom j = 0)
      by (unfold peek; rewrite (proj2 (lookup_ge_None rom (Z.to_nat j))) by lia; reflexivity).
    rewrite Hp. rewrite andb_false_r. reflexivity.
Qed.

(** ** patch_bios_psg_calls *)

Lemma length_psg_step (rom : bytearray) (o : Z) : length (psg_step o rom) = length rom.
Proof.
  unfold psg_step. destruct (psg_match rom o); rewrite ?length_poke; reflexivity.
Qed.

Lemma run_psg_body (rom : bytearray) (o : Z) :
  0 <= o -> o + 2 < Z.of_nat (length rom) ->
  run (psg_body o) rom = (Val tt, psg_step o rom).
Proof.
  intros Ho Hlen. unfold psg_body, psg_step, psg_match.
  rewrite run_when, !run_and_then.
  rewrite run_bind, run_getitem, run_ret by lia.
  destruct (peek rom o =? 0xcd); [|reflexivity].
  rewrite run_bind, run_getitem, run_ret by lia.
  destruct (peek rom (o + 1) =? 0x93); [|reflexivity].
  rewrite run_bind, run_getitem, run_ret by lia.
  destruct (peek rom (o + 2) =? 0x00); [|reflexivity].
  simpl andb. cbv iota.
  rewrite run_bind, run_setitem by lia.
  apply run_setitem; rewrite ?length_poke; lia.
Qed.

Lemma run_psg_pass (rom : bytearray) :
  run patch_bios_psg_calls rom = (Val tt, psg_pass rom) /\
  length (psg_pass rom) = length rom.
Proof.
  unfold patch_bios_psg_calls, psg_pass. rewrite run_bind, run_py_len.
  apply (run_for_each_fold (fun s => length s = length rom)); [|reflexivity].
  intros o s Ho%elem_of_py_range Hs. split.
  - apply run_psg_body; lia.
  - rewrite length_psg_step. exact Hs.
Qed.

Lemma peek_psg_step (rom : bytearray) (o j : Z) :
  0 <= o -> o + 2 < Z.of_nat (length rom) -> 0 <= j ->
  peek (psg_step o rom) j =
  if psg_match rom o && (j =? o + 1) then 0xe8
  else if psg_match rom o && (j =? o + 2) then 0x7e
  else peek rom j.
Proof.
  intros Ho Hlen Hj. unfold psg_step. destruct (psg_match rom o); [|reflexivity].
  simpl andb. destruct (Z.eq_dec j (o + 1)) as [->|H1].
  - rewrite Z.eqb_refl. rewrite peek_poke_ne by lia. apply peek_poke_eq; lia.
  - replace (j =? o + 1) with false by (symmetry; apply Z.eqb_neq; lia).
    destruct (Z.eq_dec j (o + 2)) as [->|H2].
    + rewrite Z.eqb_refl. apply peek_poke_eq; rewrite ?length_poke; lia.
    + replace (j =? o + 2) with false by (symmetry; apply Z.eqb_neq; lia).
      rewrite !peek_poke_ne by lia. reflexivity.
Qed.

Lemma psg_scanned_later (k o : Z) : k <= o -> psg_scanned k o = false.
Proof.
  intros H. unfold psg_scanned.
  replace (o <? k) with false by (symmetry; apply Z.ltb_ge; lia). apply andb_false_r.
Qed.

Lemma psg_scanned_succ_ne (k o : Z) : o <> k -> psg_scanned (k + 1) o = psg_scanned k o.
Proof.
  intros H. unfold psg_scanned. f_equal.
  destruct (o <? k) eqn:E; [apply Z.ltb_lt in E; apply Z.ltb_lt; lia|].
  apply Z.ltb_ge in E. apply Z.ltb_ge. lia.
Qed.

Lemma psg_scanned_succ_eq (k : Z) : 0x20000 <= k -> psg_scanned (k + 1) k = true.
Proof.
  intros H. unfold psg_scanned.
  replace (0x20000 <=? k) with true by (symmetry; apply Z.leb_le; lia).
  replace (k <? k + 1) with true by (symmetry; apply Z.ltb_lt; lia). reflexivity.
Qed.

Lemma psg_match_bytes (rom : bytearray) (o : Z) :
  psg_match rom o = true ->
  peek rom o = 0xcd /\ peek rom (o + 1) = 0x93 /\ peek rom (o + 2) = 0x00.
Proof.
  unfold psg_match. intros H. apply andb_true_iff in H as [H H2].
  apply andb_true_iff in H as [H0 H1]. apply Z.eqb_eq in H0, H1, H2. tauto.
Qed.

(** A byte the scan has rewritten held 0x93 or 0x00 and holds 0xe8 or 0x7e:
    the tests for 0xcd and 0x93 give the same answer before and after. *)
Lemma psg_expected_cases (k : Z) (rom : bytearray) (j : Z) :
  psg_expected k rom j = peek rom j \/
  (peek rom j = 0x93 /\ psg_expected k rom j = 0xe8) \/
  (peek rom j = 0x00 /\ psg_expected k rom j = 0x7e).
Proof.
  unfold psg_expected.
  destruct (psg_scanned k (j - 1) && psg_match rom (j - 1)) eqn:E1.
  - right. left. apply andb_true_iff in E1 as [_ E1].
    apply psg_match_bytes in E1 as (_ & E1 & _).
    replace (j - 1 + 1) with j in E1 by lia. tauto.
  - destruct (psg_scanned k (j - 2) && psg_match rom (j - 2)) eqn:E2; [|left; reflexivity].
    right. right. apply andb_true_iff in E2 as [_ E2].
    apply psg_match_bytes in E2 as (_ & _ & E2).
    replace (j - 2 + 2) with j in E2 by lia. tauto.
Qed.

Section PsgInvariant.
Variable rom : bytearray.
Variable k : Z.
Variable cur : bytearray.
Hypothesis Hk : 0x20000 <= k.
Hypothesis Hlen : k + 2 < Z.of_nat (length cur).
Hypothesis Hcur : forall j, 0 <= j -> peek cur j = psg_expected k rom j.

Lemma psg_match_cur : psg_match cur k = psg_match rom k.
Proof.
  unfold psg_match.
  assert (H2 : peek cur (k + 2) = peek rom (k + 2)).
  { rewrite Hcur by lia. unfold psg_expected. rewrite !psg_scanned_later by lia.
    reflexivity. }
  assert (H0 : (peek cur k =? 0xcd) = (peek rom k =? 0xcd)).
  { rewrite Hcur by lia.
    destruct (psg_expected_cases k rom k) as [->|[[E ->]|[E ->]]];
      [reflexivity|rewrite E; reflexivity|rewrite E; reflexivity]. }
  assert (H1 : (peek cur (k + 1) =? 0x93) = (peek rom (k + 1) =? 0x93)).
  { rewrite Hcur by lia. unfold psg_expected.
    replace (k + 1 - 1) with k by lia. rewrite (psg_scanned_later k k) by lia.
    simpl andb. cbv iota.
    destruct (psg_scanned k (k + 1 - 2) && psg_match rom (k + 1 - 2)) eqn:E; [|reflexivity].
    apply andb_true_iff in E as [_ E]. apply psg_match_bytes in E as (_ & _ & E).
    replace (k + 1 - 2 + 2) with (k + 1) in E by lia. rewrite E. reflexivity. }
  rewrite H0, H1, H2. reflexivity.
Qed.

Lemma psg_step_expected (j : Z) :
  0 <= j -> peek (psg_step k cur) j = psg_expected (k + 1) rom j.
Proof.
  intros Hj. rewrite peek_psg_step by lia. rewrite psg_match_cur.
  unfold psg_expected at 1.
  destruct (Z.eq_dec j (k + 1)) as [->|H1].
  - rewrite Z.eqb_refl. replace (k + 1 - 1) with k by lia.
    rewrite psg_scanned_succ_eq by lia.
    replace (k + 1 =? k + 2) with false by (symmetry; apply Z.eqb_neq; lia).
    rewrite andb_true_r. simpl andb.
    destruct (psg_match rom k); [reflexivity|]. cbv iota. rewrite andb_false_r.
    rewrite Hcur by lia. unfold psg_expected. replace (k + 1 - 1) with k by lia.
    rewrite (psg_scanned_later k k) by lia. simpl andb. cbv iota.
    rewrite (psg_scanned_succ_ne k (k + 1 - 2)) by lia. reflexivity.
  - replace (j =? k + 1) with false by (symmetry; apply Z.eqb_neq; lia).
    rewrite andb_false_r.
    destruct (Z.eq_dec j (k + 2)) as [->|H2].
    + rewrite Z.eqb_refl. replace (k + 2 - 2) with k by lia.
      rewrite psg_scanned_succ_eq by lia.
      rewrite (psg_scanned_later (k + 1) (k + 2 - 1)) by lia. simpl andb. cbv iota.
      rewrite andb_true_r. destruct (psg_match rom k); [reflexivity|].
      rewrite Hcur by lia. unfold psg_expected. replace (k + 2 - 2) with k by lia.
      rewrite !psg_scanned_later by lia. reflexivity.
    + replace (j =? k + 2) with false by (symmetry; apply Z.eqb_neq; lia).
      rewrite andb_false_r. rewrite Hcur by assumption. unfold psg_expected.
      rewrite (psg_scanned_succ_ne k (j - 1)), (psg_scanned_succ_ne k (j - 2)) by lia.
      reflexivity.
Qed.
End PsgInvariant.

Lemma psg_scan_expected (rom : bytearray) (n : nat) :
  0x20000 + Z.of_nat n <= Z.of_nat (length rom) - 4 ->
  let cur := fold_left (fun s o => psg_step o s)
                       (py_range 0x20000 (0x20000 + Z.of_nat n)) rom in
  length cur = length rom /\
  forall j, 0 <= j -> peek cur j = psg_expected (0x20000 + Z.of_nat n) rom j.
Proof.
  induction n as [|n IH]; intros Hn cur; subst cur.
  - rewrite py_range_empty by lia. split; [reflexivity|].
    intros j Hj. unfold psg_expected, psg_scanned. cbn [fold_left].
    replace (0x20000 + Z.of_nat 0) with 0x20000 by lia.
    destruct (0x20000 <=? j - 1) eqn:E1;
      [apply Z.leb_le in E1;
       replace (j - 1 <? 0x20000) with false by (symmetry; apply Z.ltb_ge; lia)|];
      simpl andb; cbv iota;
      (destruct (0x20000 <=? j - 2) eqn:E2;
       [apply Z.leb_le in E2;
        replace (j - 2 <? 0x20000) with false by (symmetry; apply Z.ltb_ge; lia)|]);
      reflexivity.
  - replace (0x20000 + Z.of_nat (Datatypes.S n)) with (0x20000 + Z.of_nat n + 1) by lia.
    rewrite py_range_snoc by lia. rewrite fold_left_app. cbn [fold_left].
    destruct IH as [IHl IHp]; [lia|]. split.
    + rewrite length_psg_step. exact IHl.
    + intros j Hj. apply psg_step_expected; [lia|lia|exact IHp|exact Hj].
Qed.

Lemma peek_psg_pass (rom : bytearray) (j : Z) :
  0 <= j -> peek (psg_pass rom) j = psg_expected (Z.of_nat (length rom) - 4) rom j.
Proof.
  intros Hj. unfold psg_pass.
  destruct (Z_lt_le_dec (Z.of_nat (length rom) - 4) 0x20000) as [Hshort|Hlong].
  - rewrite py_range_empty by lia. cbn [fold_left]. unfold psg_expected, psg_scanned.
    assert (E : forall o, (0x20000 <=? o) && (o <? Z.of_nat (length rom) - 4) = false).
    { intros o. destruct (0x20000 <=? o) eqn:E1; [|reflexivity]. apply Z.leb_le in E1.
      simpl. apply Z.ltb_ge. lia. }
    rewrite !E. reflexivity.
  - pose proof (psg_scan_expected rom (Z.to_nat (Z.of_nat (length rom) - 4 - 0x20000))) as H.
    replace (0x20000 + Z.of_nat (Z.to_nat (Z.of_nat (length rom) - 4 - 0x20000)))
      with (Z.of_nat (length rom) - 4) in H by lia.
    apply H; [lia|exact Hj].
Qed.

(** X4.  On every buffer [patch_bios_psg_calls] returns and keeps the
    length, and the byte it leaves at an index [j] is 0xe8 when the bytes
    0xcd, 0x93, 0x00 stood at [j - 1], 0x7e when they stood at [j - 2], for
    an offset between 0x20000 and [len(rom) - 5], and the old byte in every
    other case. *)
Theorem patch_bios_psg_calls_byte_by_byte (rom : bytearray) :
  exists rom',
    run patch_bios_psg_calls rom = (Val tt, rom') /\
    length rom' = length rom /\
    forall j, 0 <= j ->
      peek rom' j =
      if (0x20000 <=? j - 1) && (j - 1 <? Z.of_nat (length rom) - 4)
         && psg_match rom (j - 1) then 0xe8
      else if (0x20000 <=? j - 2) && (j - 2 <? Z.of_nat (length rom) - 4)
              && psg_match rom (j - 2) then 0x7e
      else peek rom j.
Proof.
  exists (psg_pass rom). destruct (run_psg_pass rom) as [Hrun Hl].
  split; [exact Hrun|]. split; [exact Hl|].
  intros j Hj. rewrite peek_psg_pass by exact Hj. reflexivity.
Qed.

(** The three bytes do not overlap a second copy of themselves. *)
Lemma psg_match_alone (rom : bytearray) (o : Z) :
  psg_match rom o = true ->
  psg_match rom (o - 2) = false /\ psg_match rom (o - 1) = false /\
  psg_match rom (o + 1) = false /\ psg_match rom (o + 2) = false.
Proof.
  intros (H0 & H1 & H2)%psg_match_bytes. unfold psg_match.
  replace (o - 2 + 2) with o by lia. replace (o - 1 + 1) with o by lia.
  rewrite H0, H1, H2. simpl. rewrite !andb_false_r. tauto.
Qed.

(** X5.  A call [0xcd, 0x93, 0x00] at an offset between 0x20000 and
    [len(rom) - 5] is redirected: after [patch_bios_psg_calls] the three
    bytes are 0xcd, 0xe8, 0x7e. *)
Theorem patch_bios_psg_calls_redirects (rom : bytearray) (o : Z) :
  0x20000 <= o < Z.of_nat (length rom) - 4 ->
  psg_match rom o = true ->
  exists rom',
    run patch_bios_psg_calls rom = (Val tt, rom') /\
    peek rom' o = 0xcd /\ peek rom' (o + 1) = 0xe8 /\ peek rom' (o + 2) = 0x7e.
Proof.
  intros Ho Hm. exists (psg_pass rom). split; [apply run_psg_pass|].
  destruct (psg_match_alone rom o Hm) as (Hm2 & Hm1 & _ & _).
  destruct (psg_match_bytes rom o Hm) as (H0 & _ & _).
  rewrite !peek_psg_pass by lia. unfold psg_expected.
  replace (o + 1 - 1) with o by lia. replace (o + 2 - 2) with o by lia.
  replace (o + 1 - 2) with (o - 1) by lia. replace (o + 2 - 1) with (o + 1) by lia.
  assert (Hs : psg_scanned (Z.of_nat (length rom) - 4) o = true).
  { unfold psg_scanned. apply andb_true_iff. split; [apply Z.leb_le|apply Z.ltb_lt]; lia. }
  rewrite Hm, Hm1, Hm2, Hs, !andb_false_r. simpl.
  destruct (psg_match_alone rom o Hm) as (_ & _ & Hp1 & _).
  rewrite Hp1, andb_false_r. auto.
Qed.

Lemma patch_bios_psg_calls_redirects_witness :
  exists rom',
    run patch_bios_psg_calls
        (replicate (Z.to_nat 0x20000) x00 ++ [xcd; x93; x00; x00; x00]) = (Val tt, rom') /\
    peek rom' 0x20000 = 0xcd /\ peek rom' 0x20001 = 0xe8 /\ peek rom' 0x20002 = 0x7e.
Proof.
  refine (patch_bios_psg_calls_redirects
            (replicate (Z.to_nat 0x20000) x00 ++ [xcd; x93; x00; x00; x00]) 0x20000 _ _).
  - rewrite length_app, length_replicate. cbn [length]. lia.
  - vm_compute. reflexivity.
Defined.

(** X6.  The scan stops four bytes before the end and starts at 0x20000: a
    call [0xcd, 0x93, 0x00] at an offset below 0x20000, or at an offset from
    [len(rom) - 4] on, is left as it is. *)
Theorem patch_bios_psg_calls_leaves (rom : bytearray) (o : Z) :
  0 <= o -> o < 0x20000 \/ Z.of_nat (length rom) - 4 <= o ->
  psg_match rom o = true ->
  exists rom',
    run patch_bios_psg_calls rom = (Val tt, rom') /\
    peek rom' o = 0xcd /\ peek rom' (o + 1) = 0x93 /\ peek rom' (o + 2) = 0x00.
Proof.
  intros Ho Hout Hm. exists (psg_pass rom). split; [apply run_psg_pass|].
  destruct (psg_match_alone rom o Hm) as (Hm2 & Hm1 & Hp1 & _).
  destruct (psg_match_bytes rom o Hm) as (H0 & H1 & H2).
  rewrite !peek_psg_pass by lia. unfold psg_expected.
  replace (o + 1 - 1) with o by lia. replace (o + 2 - 2) with o by lia.
  replace (o + 1 - 2) with (o - 1) by lia. replace (o + 2 - 1) with (o + 1) by lia.
  assert (Hs : psg_scanned (Z.of_nat (length rom) - 4) o = false).
  { unfold psg_scanned. destruct (0x20000 <=? o) eqn:E; [|reflexivity].
    apply Z.leb_le in E. simpl. apply Z.ltb_ge. lia. }
  rewrite Hm1, Hm2, Hp1, Hs, !andb_false_r. simpl. auto.
Qed.

Lemma patch_bios_psg_calls_leaves_witness :
  exists rom',
    run patch_bios_psg_calls
        (replicate (Z.to_nat 0x20000) x00 ++ [x00; xcd; x93; x00; x00]) = (Val tt, rom') /\
    peek rom' 0x20001 = 0xcd /\ peek rom' 0x20002 = 0x93 /\ peek rom' 0x20003 = 0x00.
Proof.
  refine (patch_bios_psg_calls_leaves
            (replicate (Z.to_nat 0x20000) x00 ++ [x00; xcd; x93; x00; x00]) 0x20001 _ _ _).
  - lia.
  - right. rewrite length_app, length_replicate. cbn [length]. lia.
  - vm_compute. reflexivity.
Defined.

(** After the scan no offset it tests holds the three bytes any more. *)
Lemma psg_pass_no_match (rom : bytearray) (o : Z) :
  0x20000 <= o < Z.of_nat (length rom) - 4 -> psg_match (psg_pass rom) o = false.
Proof.
  intros Ho. destruct (psg_match (psg_pass rom) o) eqn:E; [|reflexivity]. exfalso.
  apply psg_match_bytes in E as (E0 & E1 & E2).
  rewrite peek_psg_pass in E0, E1, E2 by lia.
  assert (Hs : psg_scanned (Z.of_nat (length rom) - 4) o = true).
  { unfold psg_scanned. apply andb_true_iff. split; [apply Z.leb_le|apply Z.ltb_lt]; lia. }
  destruct (psg_expected_cases (Z.of_nat (length rom) - 4) rom o) as [C0|[[_ C0]|[_ C0]]];
    rewrite C0 in E0; try discriminate.
  destruct (psg_expected_cases (Z.of_nat (length rom) - 4) rom (o + 1))
    as [C1|[[_ C1]|[_ C1]]]; rewrite C1 in E1; try discriminate.
  destruct (psg_expected_cases (Z.of_nat (length rom) - 4) rom (o + 2))
    as [C2|[[_ C2]|[C2 _]]]; try (rewrite C2 in E2; discriminate).
  - assert (Hm : psg_match rom o = true)
      by (unfold psg_match; rewrite E0, E1, <- C2, E2; reflexivity).
    unfold psg_expected in C1. replace (o + 1 - 1) with o in C1 by lia.
    rewrite Hs, Hm in C1. simpl in C1. rewrite E1 in C1. discriminate.
  - assert (Hm : psg_match rom o = true)
      by (unfold psg_match; rewrite E0, E1, C2; reflexivity).
    unfold psg_expected in C1. replace (o + 1 - 1) with o in C1 by lia.
    rewrite Hs, Hm in C1. simpl in C1. rewrite E1 in C1. discriminate.
Qed.

(** X7.  [patch_bios_psg_calls] applied to its own result changes nothing:
    a redirected call is not matched again. *)
Theorem patch_bios_psg_calls_idempotent (rom : bytearray) :
  exists rom',
    run patch_bios_psg_calls rom = (Val tt, rom') /\
    run patch_bios_psg_calls rom' = (Val tt, rom').
Proof.
  exists (psg_pass rom). destruct (run_psg_pass rom) as [Hrun Hl].
  split; [exact Hrun|].
  rewrite (proj1 (run_psg_pass (psg_pass rom))). f_equal.
  unfold psg_pass at 1. rewrite Hl.
  apply (fold_left_invariant (fun s => s = psg_pass rom)); [|reflexivity].
  intros o s Ho%elem_of_py_range ->. unfold psg_step.
  rewrite psg_pass_no_match by lia. reflexivity.
Qed.

(** ** patch_music_channel_locations, byte by byte *)

(** X8.  On a buffer of length at least 0x213f3 the pass returns, keeps the
    length, and leaves at every index [j] the old byte plus 0x0e when [j] is
    the high byte of an operand matched in the buffer as it was before the
    pass, by the indexed load at [j - 3] or the immediate load at [j - 2],
    at an offset of the scan range that is not ignored, and the old byte in
    every other case. *)
Theorem patch_music_channel_locations_byte_by_byte (rom : bytearray) :
  0x213f3 <= Z.of_nat (length rom) ->
  exists rom',
    run patch_music_channel_locations rom = (Val tt, rom') /\
    length rom' = length rom /\
    forall j, 0 <= j ->
      peek rom' j =
      if (scanned 0x213f0 (j - 3) && indexed_match rom (j - 3)) ||
         (scanned 0x213f0 (j - 2) && immediate_match rom (j - 2))
      then peek rom j + 0x0e
      else peek rom j.
Proof.
  intros Hlen. exists (channel_pass rom).
  destruct (run_channel_pass rom Hlen) as [Hrun Hl].
  split; [exact Hrun|]. split; [exact Hl|].
  intros j Hj. apply peek_channel_pass; assumption.
Qed.

Lemma patch_music_channel_locations_byte_by_byte_witness :
  exists rom',
    run patch_music_channel_locations immediate_at_ignored = (Val tt, rom') /\
    length rom' = length immediate_at_ignored.
Proof.
  assert (Hlen : 0x213f3 <= Z.of_nat (length immediate_at_ignored)).
  { unfold immediate_at_ignored. rewrite !length_app, !length_replicate. cbn [length]. lia. }
  destruct (patch_music_channel_locations_byte_by_byte immediate_at_ignored Hlen)
    as (rom' & Hrun & Hl & _).
  exists rom'. split; assumption.
Defined.

(** X9.  On every buffer the pass either returns or raises [IndexError],
    and keeps the length: the [ValueError] of [offset_address] cannot
    happen, because a matched operand has its high byte in 0xe0..0xe3 and
    the relocated address stays below 0x10000. *)
Theorem patch_music_channel_locations_outcome (rom : bytearray) :
  exists r rom',
    run patch_music_channel_locations rom = (r, rom') /\
    length rom' = length rom /\ (r = Val tt \/ r = Raise IndexError).
Proof.
  unfold patch_music_channel_locations. apply channel_loop_outcome.
  intros o Ho%elem_of_py_range. lia.
Qed.

(** A buffer that is what the pass leaves holds no match at an offset the
    pass has tested. *)
Lemma expected_no_match (rom cur : bytearray) (o : Z) :
  (forall j, 0 <= j -> peek cur j = expected 0x213f0 rom j) ->
  0 <= o -> scanned 0x213f0 o = true ->
  indexed_match cur o = false /\ immediate_match cur o = false.
Proof.
  intros Hcur Ho Hs.
  assert (Hhi : forall j, 0 <= j -> hi_e0 (peek cur j) = true ->
                hi_e0 (peek rom j) = true /\ relocated 0x213f0 rom j = false).
  { intros j Hj. rewrite Hcur by assumption. unfold expected.
    destruct (relocated 0x213f0 rom j) eqn:E; [|tauto].
    apply relocated_hi_e0, hi_e0_peek_true in E.
    rewrite hi_e0_bumped by assumption. discriminate. }
  assert (Hop : forall j, 0 <= j ->
            peek cur j = peek rom j \/
            (0xe0 <= peek rom j <= 0xe3 /\ peek cur j = peek rom j + 0x0e)).
  { intros j Hj. rewrite Hcur by assumption. apply expected_cases. }
  split.
  - destruct (indexed_match cur o) eqn:E; [|reflexivity]. exfalso.
    unfold indexed_match in E.
    apply andb_true_iff in E as [E E3]. apply andb_true_iff in E as [E0 E1].
    destruct (same_opcode _ _ (Hop o ltac:(lia))) as (S0 & _ & _).
    destruct (same_opcode _ _ (Hop (o + 1) ltac:(lia))) as (_ & S1 & _).
    rewrite S0 in E0. rewrite S1 in E1.
    destruct (Hhi (o + 3) ltac:(lia) E3) as [H3 Hr].
    unfold relocated in Hr. replace (o + 3 - 3) with o in Hr by lia.
    unfold indexed_match in Hr. rewrite Hs, E0, E1, H3 in Hr.
    cbn [andb orb] in Hr. congruence.
  - destruct (immediate_match cur o) eqn:E; [|reflexivity]. exfalso.
    unfold immediate_match in E. apply andb_true_iff in E as [E0 E2].
    destruct (same_opcode _ _ (Hop o ltac:(lia))) as (_ & _ & S0).
    rewrite S0 in E0.
    destruct (Hhi (o + 2) ltac:(lia) E2) as [H2 Hr].
    unfold relocated in Hr. replace (o + 2 - 2) with o in Hr by lia.
    unfold immediate_match in Hr. rewrite Hs, E0, H2 in Hr.
    cbn [andb] in Hr. rewrite orb_true_r in Hr. congruence.
Qed.

Lemma channel_pass_no_match (rom : bytearray) (o : Z) :
  0x213f3 <= Z.of_nat (length rom) -> 0x20000 <= o < 0x213f0 ->
  ~ In o PATCH_IGNORE_LIST ->
  indexed_match (channel_pass rom) o = false /\
  immediate_match (channel_pass rom) o = false.
Proof.
  intros Hlen Ho Hig. apply (expected_no_match rom).
  - intros j Hj. apply peek_channel_pass; assumption.
  - lia.
  - apply scanned_inside; assumption.
Qed.

(** A buffer without a match at any tested offset is left as it is, by an
    iteration and by the whole pass. *)
Lemma channel_step_fixed (cur : bytearray) (o : Z) :
  (py_in o PATCH_IGNORE_LIST = false ->
   indexed_match cur o = false /\ immediate_match cur o = false) ->
  channel_step o cur = cur.
Proof.
  intros H. unfold channel_step, indexed_stage.
  destruct (py_in o PATCH_IGNORE_LIST); [reflexivity|].
  destruct H as [-> H]; [reflexivity|]. cbv zeta. rewrite H. reflexivity.
Qed.

Lemma channel_pass_fixed (cur : bytearray) :
  (forall o, 0x20000 <= o < 0x213f0 -> channel_step o cur = cur) ->
  channel_pass cur = cur.
Proof.
  intros H. unfold channel_pass.
  apply (fold_left_invariant (fun s => s = cur)); [|reflexivity].
  intros o s Ho%elem_of_py_range ->. apply H. exact Ho.
Qed.

(** X10.  On a buffer of length at least 0x213f3 the pass applied to its own
    result changes nothing: a relocated high byte is 0xee..0xf1, which the
    patterns do not match, so no address is moved twice. *)
Theorem patch_music_channel_locations_idempotent (rom : bytearray) :
  0x213f3 <= Z.of_nat (length rom) ->
  exists rom',
    run patch_music_channel_locations rom = (Val tt, rom') /\
    run patch_music_channel_locations rom' = (Val tt, rom').
Proof.
  intros Hlen. exists (channel_pass rom).
  destruct (run_channel_pass rom Hlen) as [Hrun Hl].
  split; [exact Hrun|].
  assert (Hlen' : 0x213f3 <= Z.of_nat (length (channel_pass rom))) by lia.
  rewrite (proj1 (run_channel_pass (channel_pass rom) Hlen')).
  apply (f_equal (fun x => (Val tt, x))).
  apply channel_pass_fixed. intros o Ho.
  apply channel_step_fixed. intros Hig%py_in_false.
  apply channel_pass_no_match; assumption.
Qed.

Lemma patch_music_channel_locations_idempotent_witness :
  exists rom',
    run patch_music_channel_locations indexed_at_ignored = (Val tt, rom') /\
    run patch_music_channel_locations rom' = (Val tt, rom').
Proof.
  apply (patch_music_channel_locations_idempotent indexed_at_ignored).
  unfold indexed_at_ignored. rewrite !length_app, !length_replicate. cbn [length]. lia.
Defined.

(** ** What the pass never touches *)

Lemma indexed_block_frame (rom : bytearray) (o : Z) :
  0 <= o ->
  exists r rom',
    run (when ((b0 <~ getitem o ;; ret (b0 =? 0xdd)) &&&
               (b1 <~ getitem (o + 1) ;; ret (b1 =? 0x21)) &&&
               (b3 <~ getitem (o + 3) ;; ret (Z.land b3 0xfc =? 0xe0)))
              (offset_address (o + 2) CHANNEL_OFFSET)) rom = (r, rom') /\
    (rom' = rom \/
     (rom' = bump rom (o + 3) /\ hi_e0 (peek rom (o + 3)) = true /\
      o + 3 < Z.of_nat (length rom))).
Proof.
  intros Ho. rewrite run_when, !run_and_then, run_bind.
  destruct (run_getitem_cases rom o Ho) as [[H0 ->]|[H0 ->]]; [|eauto].
  rewrite run_ret. destruct (peek rom o =? 0xdd); [|eauto].
  rewrite run_bind.
  destruct (run_getitem_cases rom (o + 1) ltac:(lia)) as [[H1 ->]|[H1 ->]]; [|eauto].
  rewrite run_ret. destruct (peek rom (o + 1) =? 0x21); [|eauto].
  rewrite run_bind.
  destruct (run_getitem_cases rom (o + 3) ltac:(lia)) as [[H3 ->]|[H3 ->]]; [|eauto].
  rewrite run_ret. fold (hi_e0 (peek rom (o + 3))).
  destruct (hi_e0 (peek rom (o + 3))) eqn:E; [|eauto].
  rewrite run_offset_address_channel;
    [|lia|lia|replace (o + 2 + 1) with (o + 3) by lia; assumption].
  replace (o + 2 + 1) with (o + 3) by lia. eauto 7.
Qed.

Lemma immediate_block_frame (rom : bytearray) (o : Z) :
  0 <= o ->
  exists r rom',
    run (when ((b0 <~ getitem o ;;
                ret (py_in b0 [0x01; 0x11; 0x21; 0x32; 0x3a; 0x22; 0x2a])) &&&
               (b2 <~ getitem (o + 2) ;; ret (Z.land b2 0xfc =? 0xe0)))
              (offset_address (o + 1) CHANNEL_OFFSET)) rom = (r, rom') /\
    (rom' = rom \/
     (rom' = bump rom (o + 2) /\ hi_e0 (peek rom (o + 2)) = true /\
      o + 2 < Z.of_nat (length rom))).
Proof.
  intros Ho. rewrite run_when, !run_and_then, run_bind.
  destruct (run_getitem_cases rom o Ho) as [[H0 ->]|[H0 ->]]; [|eauto].
  rewrite run_ret. destruct (py_in (peek rom o) _); [|eauto].
  rewrite run_bind.
  destruct (run_getitem_cases rom (o + 2) ltac:(lia)) as [[H2 ->]|[H2 ->]]; [|eauto].
  rewrite run_ret. fold (hi_e0 (peek rom (o + 2))).
  destruct (hi_e0 (peek rom (o + 2))) eqn:E; [|eauto].
  rewrite run_offset_address_channel;
    [|lia|lia|replace (o + 1 + 1) with (o + 2) by lia; assumption].
  replace (o + 1 + 1) with (o + 2) by lia. eauto 7.
Qed.

Lemma relocation_of_refl (rom : bytearray) : relocation_of rom rom.
Proof. split; [reflexivity|]. intros j _. left. reflexivity. Qed.

Lemma relocation_of_bump (rom cur : bytearray) (p : Z) :
  relocation_of rom cur -> 0x20002 <= p <= 0x213f2 ->
  p < Z.of_nat (length cur) -> hi_e0 (peek cur p) = true ->
  relocation_of rom (bump cur p).
Proof.
  intros [Hl Hp] Hrange Hin Hhi. split; [rewrite length_bump; exact Hl|].
  intros j Hj. destruct (Z.eq_dec j p) as [->|Hne].
  - rewrite peek_bump_eq by (lia || assumption).
    apply hi_e0_peek_true in Hhi.
    destruct (Hp p Hj) as [E|(Hv & _ & E)]; [|lia].
    right. rewrite E in Hhi |- *. auto.
  - rewrite peek_bump_ne by lia. apply Hp. exact Hj.
Qed.

Lemma channel_body_frame (rom cur : bytearray) (o : Z) :
  0x20000 <= o < 0x213f0 -> relocation_of rom cur ->
  relocation_of rom (snd (run (channel_body o) cur)).
Proof.
  intros Ho Hrel. unfold channel_body.
  destruct (py_in o PATCH_IGNORE_LIST); [exact Hrel|].
  rewrite run_bind.
  destruct (indexed_block_frame cur o ltac:(lia)) as (r & cur1 & -> & H1).
  assert (Hrel1 : relocation_of rom cur1).
  { destruct H1 as [->|(-> & Hhi & Hin)]; [exact Hrel|].
    apply relocation_of_bump; (assumption || lia). }
  destruct r as [[]|e]; [|exact Hrel1].
  destruct (immediate_block_frame cur1 o ltac:(lia)) as (r & cur2 & -> & H2).
  cbn [snd]. destruct H2 as [->|(-> & Hhi & Hin)]; [exact Hrel1|].
  apply relocation_of_bump; (assumption || lia).
Qed.

Lemma channel_loop_frame (rom : bytearray) (xs : list Z) (cur : bytearray) :
  (forall o, o ∈ xs -> 0x20000 <= o < 0x213f0) -> relocation_of rom cur ->
  relocation_of rom (snd (run (for_each xs channel_body) cur)).
Proof.
  revert cur. induction xs as [|o xs IH]; intros cur Hxs Hrel; [exact Hrel|].
  rewrite run_for_each_cons.
  pose proof (channel_body_frame rom cur o (Hxs o ltac:(left)) Hrel) as H1.
  destruct (run (channel_body o) cur) as [[[]|e] cur1]; cbn [snd] in H1; [|exact H1].
  apply IH; [|exact H1]. intros o' Ho'. apply Hxs. right. exact Ho'.
Qed.

(** X11.  Whatever the buffer and whether the pass returns or stops on an
    [IndexError], the buffer it leaves has the length of the one it got and
    differs from it only at indices between 0x20002 and 0x213f2, and there
    only in bytes that were 0xe0..0xe3 and are 0x0e more: nothing outside
    the player's code is written, and no low byte is changed. *)
Theorem patch_music_channel_locations_frame (rom : bytearray) :
  relocation_of rom (snd (run patch_music_channel_locations rom)).
Proof.
  unfold patch_music_channel_locations. apply channel_loop_frame.
  - intros o Ho%elem_of_py_range. exact Ho.
  - apply relocation_of_refl.
Qed.

(** ** save_kss_file *)

Lemma length_py_slice (l : bytearray) (a b : Z) :
  0 <= a <= b ->
  Z.of_nat (length (py_slice l a b)) = Z.min (b - a) (Z.max 0 (Z.of_nat (length l) - a)).
Proof.
  intros H. unfold py_slice. rewrite length_take, length_drop. lia.
Qed.

Lemma lookup_py_slice (l : bytearray) (a b : Z) (i : nat) :
  0 <= a <= b -> Z.of_nat i < b - a ->
  py_slice l a b !! i = l !! (Z.to_nat a + i)%nat.
Proof.
  intros H Hi. unfold py_slice. rewrite lookup_take_lt by lia. apply lookup_drop.
Qed.

Lemma kss_image_pages (kss_header rom : bytearray) :
  kss_image kss_header rom =
  kss_header ++ py_slice rom (0x10 * 8192) (0x10 * 8192 + 8192)
             ++ py_slice rom 0 8192 ++ py_slice rom 0 8192
             ++ py_slice rom (0x11 * 8192) (0x11 * 8192 + 8192)
             ++ py_slice rom (0x12 * 8192) (0x12 * 8192 + 8192)
             ++ py_slice rom (0x13 * 8192) (0x13 * 8192 + 8192).
Proof.
  unfold kss_image. cbn [fold_left]. cbv zeta. rewrite <- !app_assoc.
  repeat f_equal.
Qed.

Lemma run_save_kss_file (kss_header : bytearray) (filename : string) (w : world) :
  run (save_kss_file kss_header filename) w =
  (Val tt, World (rom w) (scc_rom w)
                 (written w ++ [(filename, kss_image kss_header (rom w))])).
Proof. reflexivity. Qed.

(** X12.  [save_kss_file] never raises and leaves both buffers as they
    are: it adds one file, the header followed by what the buffer holds of
    the pages 0x10, 0, 0, 0x11, 0x12, 0x13.  A page the buffer does not
    reach, or reaches only in part, is empty or cut short, so the file has
    the header's length plus, for each page, 8192 bytes or as many as the
    buffer has from the page's offset on. *)
Theorem save_kss_file_writes (kss_header : bytearray) (filename : string) (w : world) :
  exists kss,
    run (save_kss_file kss_header filename) w =
    (Val tt, World (rom w) (scc_rom w) (written w ++ [(filename, kss)])) /\
    take (length kss_header) kss = kss_header /\
    Z.of_nat (length kss) =
    Z.of_nat (length kss_header)
    + page_size (Z.of_nat (length (rom w))) 0x10
    + page_size (Z.of_nat (length (rom w))) 0
    + page_size (Z.of_nat (length (rom w))) 0
    + page_size (Z.of_nat (length (rom w))) 0x11
    + page_size (Z.of_nat (length (rom w))) 0x12
    + page_size (Z.of_nat (length (rom w))) 0x13.
Proof.
  exists (kss_image kss_header (rom w)). split; [apply run_save_kss_file|].
  rewrite kss_image_pages. split.
  - rewrite take_app_length. reflexivity.
  - rewrite !length_app, !Nat2Z.inj_add, !length_py_slice by lia.
    unfold page_size. lia.
Qed.

Lemma length_py_slice_page (l : bytearray) (a : Z) :
  0 <= a -> a + 8192 <= Z.of_nat (length l) ->
  length (py_slice l a (a + 8192)) = Z.to_nat 8192.
Proof.
  intros Ha Hl. pose proof (length_py_slice l a (a + 8192) ltac:(lia)). lia.
Qed.

(** X13.  From a buffer of at least 0x28000 bytes the file is the header
    followed by six full pages: byte [i] of the page in slot 0..5 is the
    buffer's byte [i] of page 0x10, 0, 0, 0x11, 0x12, 0x13 in this order, so
    the first 8 KiB of the buffer appear twice. *)
Theorem kss_image_layout (kss_header rom : bytearray) :
  0x28000 <= Z.of_nat (length rom) ->
  Z.of_nat (length (kss_image kss_header rom)) = Z.of_nat (length kss_header) + 0xc000 /\
  forall (slot : nat) (page : Z) (i : nat),
    [0x10; 0x0; 0x0; 0x11; 0x12; 0x13] !! slot = Some page ->
    Z.of_nat i < 8192 ->
    kss_image kss_header rom !! (length kss_header + slot * Z.to_nat 8192 + i)%nat
    = rom !! (Z.to_nat (page * 8192) + i)%nat.
Proof.
  intros Hlen. rewrite kss_image_pages.
  pose proof (length_py_slice_page rom (0x10 * 8192) ltac:(lia) ltac:(lia)) as L0.
  pose proof (length_py_slice_page rom 0 ltac:(lia) ltac:(lia)) as L1.
  pose proof (length_py_slice_page rom (0x11 * 8192) ltac:(lia) ltac:(lia)) as L3.
  pose proof (length_py_slice_page rom (0x12 * 8192) ltac:(lia) ltac:(lia)) as L4.
  pose proof (length_py_slice_page rom (0x13 * 8192) ltac:(lia) ltac:(lia)) as L5.
  change (0 + 8192) with 8192 in L1.
  split.
  - rewrite !length_app, L0, L1, L3, L4, L5. lia.
  - intros slot page i Hslot Hi.
    rewrite lookup_app_r by lia.
    destruct slot as [|[|[|[|[|[|slot]]]]]]; simpl in Hslot;
      try discriminate Hslot; injection Hslot as <-.
    + rewrite lookup_app_l by lia. rewrite lookup_py_slice by lia.
      apply (f_equal (fun n => rom !! n)). lia.
    + rewrite lookup_app_r by lia. rewrite lookup_app_l by lia.
      rewrite lookup_py_slice by lia.
      apply (f_equal (fun n => rom !! n)). lia.
    + do 2 rewrite lookup_app_r by lia. rewrite lookup_app_l by lia.
      rewrite lookup_py_slice by lia.
      apply (f_equal (fun n => rom !! n)). lia.
    + do 3 rewrite lookup_app_r by lia. rewrite lookup_app_l by lia.
      rewrite lookup_py_slice by lia.
      apply (f_equal (fun n => rom !! n)). lia.
    + do 4 rewrite lookup_app_r by lia. rewrite lookup_app_l by lia.
      rewrite lookup_py_slice by lia.
      apply (f_equal (fun n => rom !! n)). lia.
    + do 5 rewrite lookup_app_r by lia.
      rewrite lookup_py_slice by lia.
      apply (f_equal (fun n => rom !! n)). lia.
Qed.

Lemma kss_image_layout_witness :
  Z.of_nat (length (kss_image [x4b; x53] (replicate (Z.to_nat 0x28000) x00)))
  = Z.of_nat (length [x4b; x53]) + 0xc000.
Proof.
  refine (proj1 (kss_image_layout [x4b; x53] (replicate (Z.to_nat 0x28000) x00) _)).
  rewrite length_replicate. lia.
Defined.

(** ** The script after the integrity checks *)

(** The script is the two checks, the concatenation, and [build]. *)
Lemma script_stages (kss_header : bytearray) (compile : M bytearray unit)
      (sjasmplus : option (list (string * bytearray))) :
  script kss_header compile sjasmplus =
  (on_rom (check_hash "66da3107684286d1eba45efb8eae9113") ;;;
   w <~ get ;;
   on_temp (py_slice (scc_rom w) 0x14000 0x1a000)
           (check_hash "61c33112a5a2cefd1df81dc1434aa42a") ;;;
   put (World (composed (rom w) (scc_rom w)) (scc_rom w) (written w)) ;;;
   build kss_header compile sjasmplus).
Proof. reflexivity. Qed.

(** X14.  The buffer the script builds has the bytes of [vkiller.rom]
    first, then the bytes 0x14000..0x19fff of [nemesis3.rom] (fewer when
    that file is shorter: the slice does not raise), then 0x1a000 bytes
    0x20; with a [nemesis3.rom] of at least 0x1a000 bytes it is 0x20000
    bytes longer than [vkiller.rom]. *)
Theorem composed_layout (vkiller nemesis3 : bytearray) :
  Z.of_nat (length (composed vkiller nemesis3))
  = Z.of_nat (length vkiller)
    + Z.min 0x6000 (Z.max 0 (Z.of_nat (length nemesis3) - 0x14000)) + 0x1a000 /\
  take (length vkiller) (composed vkiller nemesis3) = vkiller /\
  (forall i : nat,
     Z.of_nat i < Z.min 0x6000 (Z.max 0 (Z.of_nat (length nemesis3) - 0x14000)) ->
     composed vkiller nemesis3 !! (length vkiller + i)%nat
     = nemesis3 !! (Z.to_nat 0x14000 + i)%nat) /\
  (forall i : nat,
     Z.of_nat i < 0x1a000 ->
     composed vkiller nemesis3
       !! (length vkiller + length (py_slice nemesis3 0x14000 0x1a000) + i)%nat
     = Some " "%byte) /\
  (0x1a000 <= Z.of_nat (length nemesis3) ->
   Z.of_nat (length (composed vkiller nemesis3)) = Z.of_nat (length vkiller) + 0x20000).
Proof.
  pose proof (length_py_slice nemesis3 0x14000 0x1a000 ltac:(lia)) as Hs.
  assert (Hlen : Z.of_nat (length (composed vkiller nemesis3))
                 = Z.of_nat (length vkiller)
                   + Z.min 0x6000 (Z.max 0 (Z.of_nat (length nemesis3) - 0x14000))
                   + 0x1a000).
  { unfold composed. rewrite !length_app, length_replicate. lia. }
  split; [exact Hlen|]. split; [|split; [|split]].
  - unfold composed. rewrite take_app_length. reflexivity.
  - intros i Hi. unfold composed.
    rewrite lookup_app_r by lia. rewrite lookup_app_l by lia.
    rewrite lookup_py_slice by lia.
    apply (f_equal (fun n => nemesis3 !! n)). lia.
  - intros i Hi. unfold composed.
    rewrite lookup_app_r by lia. rewrite lookup_app_r by lia.
    apply lookup_replicate_2. lia.
  - intros Hn. rewrite Hlen. lia.
Qed.

Lemma composed_layout_witness :
  Z.of_nat (length (composed [x00] (replicate (Z.to_nat 0x1a000) x00)))
  = Z.of_nat (length [x00]) + 0x20000.
Proof.
  refine (proj2 (proj2 (proj2 (proj2
            (composed_layout [x00] (replicate (Z.to_nat 0x1a000) x00))))) _).
  rewrite length_replicate. lia.
Defined.

Lemma length_fixed (rom : bytearray) : length (fixed rom) = length rom.
Proof. unfold fixed. rewrite !length_poke. reflexivity. Qed.

Lemma world_eta (w : world) : World (rom w) (scc_rom w) (written w) = w.
Proof. destruct w. reflexivity. Qed.

Section BuildFacts.
Variable kss_header : bytearray.
Variable compile : M bytearray unit.

(** The fixes are guarded by the assertion on byte 0x21484, and the
    compiler is run on the fixed buffer. *)
Lemma run_fixes (buf : bytearray) :
  0x21489 <= Z.of_nat (length buf) -> peek buf 0x21484 = 0x0a ->
  run (b <~ getitem 0x21484 ;; py_assert (b =? 0x0a) ;;;
       setitem 0x21485 0x90 ;;;
       setitem 0x21486 0 ;;;
       setitem 0x21487 0x90 ;;;
       setitem 0x21488 0 ;;;
       setitem 0x213e0 0xc0 ;;;
       setitem 0x213e1 0 ;;;
       setitem 0x21404 0xa0 ;;;
       setitem 0x21405 0 ;;;
       setitem 0x0078 0xfa ;;;
       setitem 0x0077 0xf0 ;;;
       compile) buf
  = run compile (fixed buf).
Proof.
  intros Hlen H. rewrite run_bind, run_getitem by lia. rewrite H.
  change (0x0a =? 0x0a) with true. rewrite run_bind.
  change (run (py_assert true) buf) with (Val tt, buf). cbv beta iota.
  do 10 (rewrite run_bind, run_setitem by (rewrite ?length_poke; lia)).
  reflexivity.
Qed.

Lemma run_passes (buf : bytearray) :
  0x213f3 <= Z.of_nat (length buf) ->
  run (patch_mapper ;;; patch_music_channel_locations ;;; patch_bios_psg_calls) buf
  = (Val tt, patched buf).
Proof.
  intros Hlen. destruct (run_patch_mapper buf) as [H1 L1].
  rewrite run_bind, H1.
  destruct (run_channel_pass (mapper_pass buf) ltac:(lia)) as [H2 L2].
  rewrite run_bind, H2. apply run_psg_pass.
Qed.

End BuildFacts.

Section BuildOutcomes.
Variable kss_header : bytearray.
Variable compile : M bytearray unit.

(** X15.  The fixes are guarded: when the buffer does not reach index
    0x21484 the script stops there with [IndexError], and when the byte at
    0x21484 is not 0x0a it stops with [AssertionError]; in both cases the
    buffer is as it was and no file has been written, whatever the compiler
    and the assembler would have done. *)
Theorem build_guard (sjasmplus : option (list (string * bytearray))) (w : world) :
  (Z.of_nat (length (rom w)) <= 0x21484 ->
   run (build kss_header compile sjasmplus) w = (Raise IndexError, w)) /\
  (0x21484 < Z.of_nat (length (rom w)) -> peek (rom w) 0x21484 <> 0x0a ->
   run (build kss_header compile sjasmplus) w = (Raise AssertionError, w)).
Proof.
  split.
  - intros Hlen. unfold build. rewrite run_bind, run_on_rom.
    rewrite run_bind, run_getitem_outside by lia. cbn [fst snd].
    rewrite world_eta. reflexivity.
  - intros Hlen Hne. unfold build. rewrite run_bind, run_on_rom.
    rewrite run_bind, run_getitem by lia.
    apply Z.eqb_neq in Hne. rewrite run_bind, Hne. cbn [py_assert].
    rewrite run_raise. cbn [fst snd]. rewrite world_eta. reflexivity.
Qed.

(** The script up to the run of the assembler. *)
Lemma run_build_prefix (sjasmplus : option (list (string * bytearray)))
      (w : world) (c : bytearray) :
  0x21489 <= Z.of_nat (length (rom w)) -> peek (rom w) 0x21484 = 0x0a ->
  run compile (fixed (rom w)) = (Val tt, c) ->
  0x213f3 <= Z.of_nat (length c) ->
  run (build kss_header compile sjasmplus) w =
  run (match sjasmplus with
       | None => raise (SystemExit (-1))
       | Some patches =>
           on_rom (for_each patches apply_patch) ;;;
           w <~ get ;;
           write_file "vkilscc.rom" (rom w)
       end)
      (World (patched c) (scc_rom w)
             (written w ++ [("vkiller_scc.kss"%string, kss_image kss_header c)])).
Proof.
  intros Hlen H0a Hc Hlc. unfold build.
  rewrite run_bind, run_on_rom, run_fixes, Hc by assumption. cbn [fst snd].
  rewrite run_bind, run_save_kss_file. cbn [rom scc_rom written].
  rewrite run_bind, run_on_rom. cbn [rom scc_rom written].
  rewrite run_passes by assumption. reflexivity.
Qed.

(** X16.  When the fixes and the compiler have gone through and the
    assembler fails, the script exits with status -1 after it has written
    [vkiller_scc.kss] and before it writes [vkilscc.rom]; the KSS file is
    made from the buffer as the compiler left it, before the three patch
    passes. *)
Theorem build_assembler_failure (w : world) (c : bytearray) :
  0x21489 <= Z.of_nat (length (rom w)) -> peek (rom w) 0x21484 = 0x0a ->
  run compile (fixed (rom w)) = (Val tt, c) ->
  0x213f3 <= Z.of_nat (length c) ->
  run (build kss_header compile None) w =
  (Raise (SystemExit (-1)),
   World (patched c) (scc_rom w)
         (written w ++ [("vkiller_scc.kss"%string, kss_image kss_header c)])).
Proof.
  intros Hlen H0a Hc Hlc.
  rewrite (run_build_prefix None w c) by assumption. reflexivity.
Qed.



End BuildOutcomes.

Lemma build_guard_witness :
  run (build [] (ret tt) None) (World [x00; x01] [] [])
  = (Raise IndexError, World [x00; x01] [] []) /\
  run (build [] (ret tt) None)
      (World (replicate (Z.to_nat 0x21485) x00) [] [])
  = (Raise AssertionError, World (replicate (Z.to_nat 0x21485) x00) [] []).
Proof.
  split.
  - apply (proj1 (build_guard [] (ret tt) None (World [x00; x01] [] []))).
    simpl. lia.
  - apply (proj2 (build_guard [] (ret tt) None
                              (World (replicate (Z.to_nat 0x21485) x00) [] []))).
    + cbn [rom]. rewrite length_replicate. lia.
    + cbn [rom]. unfold peek, byte_of.
      rewrite lookup_replicate_2 by lia. simpl. discriminate.
Defined.

Lemma length_sample_image : Z.of_nat (length sample_image) = 0x22485.
Proof.
  unfold sample_image. rewrite !length_app, !length_replicate. cbn [length]. lia.
Qed.

Lemma build_assembler_failure_witness :
  run (build [] (ret tt) None) (World sample_image [] []) =
  (Raise (SystemExit (-1)),
   World (patched (fixed sample_image)) []
         ([] ++ [("vkiller_scc.kss"%string, kss_image [] (fixed sample_image))])).
Proof.
  apply (build_assembler_failure [] (ret tt) (World sample_image [] [])
                                 (fixed sample_image)).
  - cbn [rom]. rewrite length_sample_image. lia.
  - vm_compute. reflexivity.
  - reflexivity.
  - rewrite length_fixed, length_sample_image. lia.
Defined.


(** ** Fragments that do not fit, and fragments in sequence *)





(** ** Names of fragments *)

Lemma hex_digit_reads_as (d : Z) : 0 <= d < 16 -> reads_as (MD5.hex_digit d) d.
Proof.
  intros Hd.
  assert (H : d = 0 \/ d = 1 \/ d = 2 \/ d = 3 \/ d = 4 \/ d = 5 \/ d = 6 \/ d = 7 \/
              d = 8 \/ d = 9 \/ d = 10 \/ d = 11 \/ d = 12 \/ d = 13 \/ d = 14 \/
              d = 15) by lia.
  repeat (destruct H as [-> | H]); try subst d; by_eval.
Qed.

Lemma int16_five_digits (c4 c3 c2 c1 c0 : ascii) (d4 d3 d2 d1 d0 : Z) :
  reads_as c4 d4 -> reads_as c3 d3 -> reads_as c2 d2 -> reads_as c1 d1 ->
  reads_as c0 d0 ->
  PyInt.int16 (string_of_list_ascii [c4; c3; c2; c1; c0])
  = Some ((((d4 * 16 + d3) * 16 + d2) * 16 + d1) * 16 + d0).
Proof.
  intros (V4 & S4 & U4 & P4 & M4 & _) (V3 & _ & U3 & _ & _ & X3 & Y3)
         (V2 & _ & U2 & _) (V1 & _ & U1 & _) (V0 & _ & U0 & _).
  unfold PyInt.int16. rewrite list_ascii_of_string_of_list_ascii.
  cbn [PyInt.lstrip]. rewrite S4. cbn [PyInt.signed]. rewrite P4, M4.
  cbn [PyInt.skip_prefix]. rewrite X3, Y3, andb_false_r. rewrite V4.
  cbn [PyInt.scan]. rewrite U4, V4, U3, V3, U2, V2, U1, V1, U0, V0.
  cbn [PyInt.lstrip]. f_equal. lia.
Qed.

Lemma int16_hex5 (n : Z) : 0 <= n < 0x100000 -> PyInt.int16 (hex5 n) = Some n.
Proof.
  intros Hn. unfold hex5. cbn [map].
  rewrite (int16_five_digits _ _ _ _ _ (n / 16 ^ 4 mod 16) (n / 16 ^ 3 mod 16)
             (n / 16 ^ 2 mod 16) (n / 16 ^ 1 mod 16) (n / 16 ^ 0 mod 16))
    by (apply hex_digit_reads_as; apply Z.mod_pos_bound; lia).
  f_equal. change (16 ^ 4) with 65536. change (16 ^ 3) with 4096.
  change (16 ^ 2) with 256. change (16 ^ 1) with 16. change (16 ^ 0) with 1.
  dlia.
Qed.

Lemma substring_skip (prefix s : string) (m : nat) :
  substring (String.length prefix) m (prefix ++ s) = substring 0 m s.
Proof. induction prefix as [|c prefix IH]; [reflexivity | exact IH]. Qed.

Lemma substring_hex5 (n : Z) (suffix : string) :
  substring 0 5 (hex5 n ++ suffix) = hex5 n.
Proof. unfold hex5. simpl. rewrite substring_0_0. reflexivity. Qed.

(** X19.  The offset is read from the fourteenth to the eighteenth
    character of the name whatever stands before and after them: a name
    made of any thirteen characters, the five lower-case hex digits of [n]
    and any ending is merged at [n], provided the fragment fits. *)
Theorem apply_patch_reads_five_digits (prefix suffix : string) (n : Z)
        (buf data : bytearray) :
  String.length prefix = 13%nat ->
  0 <= n < 0x100000 ->
  n + Z.of_nat (length data) <= Z.of_nat (length buf) ->
  merges_at (prefix ++ hex5 n ++ suffix) n buf data.
Proof.
  intros Hp Hn Hfit. apply run_apply_patch; [|lia|exact Hfit].
  rewrite <- Hp, substring_skip, substring_hex5. apply int16_hex5. exact Hn.
Qed.

Lemma apply_patch_reads_five_digits_witness :
  merges_at "vkiller_patch00002.bin" 2 [x00; x00; x00; x00; x00] [x01; x02].
Proof.
  refine (apply_patch_reads_five_digits "vkiller_patch" ".bin" 2
            [x00; x00; x00; x00; x00] [x01; x02] _ _ _).
  - reflexivity.
  - lia.
  - simpl. lia.
Defined.

(** ** Several fragments *)











